(** * dndrules: dice notation, d20 checks and character maths

    A shallow embedding of the Python package [dndrules] (modules
    [dice], [rules], [abilities] and [character]) together with the
    properties its specification states about it.

    Conventions of the embedding.
    - Python [int] is [Z]; floor division [//] is [Z.div].
    - Python [str] is [string]; a character is the code point
      U+0000..U+00FF held by an [ascii].  The predicates of the string
      methods ([str.isspace], [str.lower]) and of [int()] are written out
      for that range.
    - A raised exception is the [Raise] branch of [result]; the
      constructor names the exception class and the [raise] site.
    - [float] is IEEE-754 binary64, [spec_float] with [prec = 53] and
      [emax = 1024].
    - [random.Random] is a state [g : G] of a [RandomSource]; a function
      that draws from it returns the state it leaves behind, also when
      it raises. *)

From Stdlib Require Import ZArith QArith List String Ascii Bool Lia.
From Stdlib Require Import SpecFloat.
From stdpp Require Import gmap strings.

Local Open Scope string_scope.
Local Open Scope list_scope.
Local Open Scope Z_scope.

(** ** Exceptions *)

(** Every [raise ValueError(...)] of the package, and the [ValueError]
    of the builtin [int()]. *)
Inductive value_error :=
| EmptyExpression        (* "Dice expression cannot be empty" *)
| EmptyToken             (* "Empty token in dice expression" *)
| InvalidModifier        (* "Invalid modifier in token: ..." *)
| CouldNotParse          (* "Could not parse expression: ..." *)
| InvalidLiteral         (* int(): "invalid literal for int() with base 10" *)
| DigitLimit             (* int(): "Exceeds the limit (4300 digits) ..." *)
| NegativeCount          (* "Dice count must be non-negative" *)
| NonPositiveSize        (* "Die size must be positive" *)
| BadSign                (* "Sign must be 1 or -1" *)
| BadAdvantageState      (* "Advantage state must be 'normal', ..." *)
| ScoreOutOfRange        (* "Ability scores must be between 1 and 30" *)
| LevelOutOfRange        (* "Character level must be between 1 and 20" *)
| EmptyName.             (* "Character name cannot be empty" *)

Inductive exn :=
| ValueError (why : value_error)
| KeyError (key : string)
| AttributeError (name : string)
| ZeroDivisionError
| OverflowError.

Inductive result (A : Type) :=
| OK (a : A)
| Raise (e : exn).
Arguments OK {A} a.
Arguments Raise {A} e.

Definition bind {A B} (r : result A) (k : A -> result B) : result B :=
  match r with
  | OK a => k a
  | Raise e => Raise e
  end.

Declare Scope result_scope.
Delimit Scope result_scope with result.
Notation "'do' x <- r ; k" := (bind r (fun x => k))
  (at level 10, x pattern, r at level 100, k at level 200) : result_scope.
Local Open Scope result_scope.

(** ** The string methods the parser relies on *)

Module Str.

Definition code (c : ascii) : Z := Z.of_N (N_of_ascii c).

(** [str.isspace] on U+0000..U+00FF: TAB, LF, VT, FF, CR, the four
    separators FS..US, SPACE, NEL and NBSP. *)
Definition isspace (c : ascii) : bool :=
  let n := code c in
  ((9 <=? n) && (n <=? 13)) || ((28 <=? n) && (n <=? 32))
  || (n =? 133) || (n =? 160).

(** The whitespace [int()] skips around a literal: the same set
    without FS..US. *)
Definition int_isspace (c : ascii) : bool :=
  let n := code c in
  ((9 <=? n) && (n <=? 13)) || (n =? 32) || (n =? 133) || (n =? 160).

Definition is_digit (c : ascii) : bool :=
  let n := code c in (48 <=? n) && (n <=? 57).

Definition digit_value (c : ascii) : Z := code c - 48.

(** [str.lower] on one character: A..Z and the Latin-1 capitals
    U+00C0..U+00DE (without the multiplication sign U+00D7). *)
Definition lower_char (c : ascii) : ascii :=
  let n := code c in
  if ((65 <=? n) && (n <=? 90))
     || ((192 <=? n) && (n <=? 222) && negb (n =? 215))
  then ascii_of_N (Z.to_N (n + 32))
  else c.

Fixpoint lower (s : string) : string :=
  match s with
  | EmptyString => EmptyString
  | String c r => String (lower_char c) (lower r)
  end.

(** [s.replace(" ", "")] *)
Fixpoint remove_spaces (s : string) : string :=
  match s with
  | EmptyString => EmptyString
  | String c r =>
      if Ascii.eqb c " " then remove_spaces r else String c (remove_spaces r)
  end.

Fixpoint lstrip (s : string) : string :=
  match s with
  | EmptyString => EmptyString
  | String c r => if isspace c then lstrip r else s
  end.

Fixpoint rstrip (s : string) : string :=
  match s with
  | EmptyString => EmptyString
  | String c r =>
      match rstrip r with
      | EmptyString => if isspace c then EmptyString else String c EmptyString
      | r' => String c r'
      end
  end.

(** [s.strip()] *)
Definition strip (s : string) : string := rstrip (lstrip s).

(** ["d" in s] *)
Fixpoint contains_d (s : string) : bool :=
  match s with
  | EmptyString => false
  | String c r => Ascii.eqb c "d" || contains_d r
  end.

(** [s.split("d", 1)] for a string that contains a ["d"]: the text
    before the first ["d"] and the text after it. *)
Fixpoint split_d (s : string) : string * string :=
  match s with
  | EmptyString => (EmptyString, EmptyString)
  | String c r =>
      if Ascii.eqb c "d" then (EmptyString, r)
      else let '(before, after) := split_d r in (String c before, after)
  end.

(** *** The builtin [int(s)], base 10 *)

Fixpoint skip_int_space (s : string) : string :=
  match s with
  | EmptyString => EmptyString
  | String c r => if int_isspace c then skip_int_space r else s
  end.

(** The digit scan of [int()]: a digit, then digits with single
    underscores between them.  [prev] is the character scanned last,
    [acc] the value so far, [n] the number of digits.  Returns the
    value, the digit count and the unread rest. *)
Fixpoint scan_digits (s : string) (prev : option ascii) (acc : Z) (n : nat)
  : option (Z * nat * string) :=
  let stop :=
    match prev with
    | None => None                     (* no digit at all *)
    | Some p => if Ascii.eqb p "_" then None else Some (acc, n, s)
    end in
  match s with
  | EmptyString => stop
  | String c r =>
      if is_digit c then scan_digits r (Some c) (10 * acc + digit_value c) (S n)
      else if Ascii.eqb c "_" then
        match prev with
        | None => None                 (* may not start with "_" *)
        | Some p => if Ascii.eqb p "_" then None else scan_digits r (Some c) acc n
        end
      else stop
  end.

(** [sys.get_int_max_str_digits()], at its default: a literal with more
    digits is refused. *)
Definition int_max_str_digits : nat := 4300.

Definition int (s : string) : result Z :=
  let s := skip_int_space s in
  let '(neg, s) :=
    match s with
    | String "+" r => (false, r)
    | String "-" r => (true, r)
    | _ => (false, s)
    end in
  match scan_digits s None 0 0 with
  | None => Raise (ValueError InvalidLiteral)
  | Some (v, n, rest) =>
      if (int_max_str_digits <? n)%nat then Raise (ValueError DigitLimit)
      else
        match skip_int_space rest with
        | EmptyString => OK (if neg then - v else v)
        | _ => Raise (ValueError InvalidLiteral)
        end
  end.

End Str.

Definition tab : string := String (ascii_of_nat 9) EmptyString.

Infix "+++" := String.append (at level 60, right associativity).

(** ** Python numbers: [int] and binary64 [float] *)

Module Float.

Definition prec : Z := 53.
Definition emax : Z := 1024.

(** A value of type [int] or [float]. *)
Inductive number :=
| Int (z : Z)
| Float (f : spec_float).

(** An operation on integers whose rounded result is out of the range of
    a [float] raises [OverflowError]. *)
Definition finite_or_overflow (f : spec_float) : result spec_float :=
  match f with
  | S754_infinity _ => Raise OverflowError
  | _ => OK f
  end.

(** The conversion of an [int] operand to [float], to nearest-even. *)
Definition of_int (z : Z) : result spec_float :=
  finite_or_overflow (binary_normalize prec emax z 0 false).

(** [a / b] on two [int]s: the quotient, correctly rounded. *)
Definition int_truediv (a b : Z) : result spec_float :=
  if b =? 0 then Raise ZeroDivisionError
  else if a =? 0 then OK (S754_zero (b <? 0))
  else
    let '(q, e, l) := SFdiv_core_binary prec emax (Z.abs a) 0 (Z.abs b) 0 in
    finite_or_overflow (binary_round_aux prec emax (xorb (a <? 0) (b <? 0)) q e l).

(** [x + y] for a [float] [y]. *)
Definition add_float (x : number) (y : spec_float) : result number :=
  match x with
  | Int z => do f <- of_int z; OK (Float (SFadd prec emax f y))
  | Float f => OK (Float (SFadd prec emax f y))
  end.

(** The rational a finite [float] stands for. *)
Definition float_value (f : spec_float) : option Q :=
  match f with
  | S754_zero _ => Some 0%Q
  | S754_finite s m e =>
      let n := if s then Zneg m else Zpos m in
      Some (match e with
            | Zneg k => Qmake n (2 ^ k)%positive
            | _ => inject_Z (n * 2 ^ e)
            end)
  | _ => None
  end.

Definition value (x : number) : option Q :=
  match x with
  | Int z => Some (inject_Z z)
  | Float f => float_value f
  end.

End Float.

(** ** The injected random source *)

(** What the package asks of its [rng] argument: [rng.randint(lo, hi)]
    returns an integer of the closed range and advances the source.

    Every function with an [rng] parameter starts with
    [rng = rng or random.Random()] (or [_ensure_rng]): it uses the
    caller's source when one is passed and a fresh one of its own
    otherwise.  In both cases the function runs on one source from its
    first draw to its last; [g] is the state of that source at the call,
    and the state returned is the one the caller's source is left in. *)
Class RandomSource (G : Type) := {
  randint : Z -> Z -> G -> Z * G;
  randint_range : forall lo hi g, lo <= hi -> lo <= fst (randint lo hi g) <= hi
}.

(** A small linear congruential generator, used to run the functions on
    concrete inputs. *)
Definition lcg_step (s : Z) : Z := (1103515245 * s + 12345) mod 2147483648.

Definition lcg_randint (lo hi s : Z) : Z * Z :=
  let s' := lcg_step s in (lo + s' mod (hi - lo + 1), s').

#[export] Instance lcg : RandomSource Z.
Proof.
  refine {| randint := lcg_randint |}.
  intros lo hi s Hle. unfold lcg_randint. cbn [fst].
  pose proof (Z.mod_pos_bound (lcg_step s) (hi - lo + 1)). lia.
Defined.

(** ** dice.py: the data model and the parser *)

Module Dice.

(** [DiceTerm]: a frozen dataclass. *)
Record DiceTerm := { count : Z; size : Z; sign : Z }.

(** [DiceTerm.__post_init__], run by every construction. *)
Definition DiceTerm_post_init (t : DiceTerm) : result DiceTerm :=
  if count t <? 0 then Raise (ValueError NegativeCount)
  else if size t <=? 0 then Raise (ValueError NonPositiveSize)
  else if negb ((sign t =? 1) || (sign t =? -1)) then Raise (ValueError BadSign)
  else OK t.

(** [DiceTerm(count=..., size=..., sign=...)] *)
Definition new_DiceTerm (count size sign : Z) : result DiceTerm :=
  DiceTerm_post_init {| count := count; size := size; sign := sign |}.

Record ModifierTerm := { value : Z }.

Module DiceExpression.
Record t := { dice : list DiceTerm; modifiers : list ModifierTerm }.

(** The property [modifier_total]. *)
Definition modifier_total (e : t) : Z :=
  fold_left Z.add (map value (modifiers e)) 0.
End DiceExpression.
Abbreviation DiceExpression := DiceExpression.t.

(** *** [_TOKEN_RE = re.compile(r"[+-]?[^+-]+")] *)

Definition is_sign (c : ascii) : bool := Ascii.eqb c "+" || Ascii.eqb c "-".

(** The longest prefix matched by [[^+-]*]. *)
Fixpoint take_run (s : string) : string :=
  match s with
  | EmptyString => EmptyString
  | String c r => if is_sign c then EmptyString else String c (take_run r)
  end.

(** [_TOKEN_RE.match(s)]: the text matched at the start of [s].  When
    [s] starts with a sign that no other character follows, giving the
    sign back to [[+-]?] does not help, since [[^+-]+] then meets that
    sign: there is no match. *)
Definition match_token (s : string) : option string :=
  match s with
  | EmptyString => None
  | String c r =>
      if is_sign c then
        match take_run r with
        | EmptyString => None
        | run => Some (String c run)
        end
      else Some (take_run s)
  end.

(** [_TOKEN_RE.findall(s)]: at each position, left to right, a match is
    recorded and the scan resumes after it; without a match the scan
    moves on by one character.  [inside] counts the characters of the
    last match still to be stepped over. *)
Fixpoint findall_from (s : string) (inside : nat) : list string :=
  match s with
  | EmptyString => []
  | String _ r =>
      match inside with
      | S k => findall_from r k
      | O =>
          match match_token s with
          | Some tok => tok :: findall_from r (String.length tok - 1)
          | None => findall_from r 0
          end
      end
  end.

Definition findall (s : string) : list string := findall_from s 0.

(** *** [_parse_token] *)

Definition _parse_token (token : string)
  : result (option DiceTerm * option ModifierTerm) :=
  let token := Str.strip token in
  match token with
  | EmptyString => Raise (ValueError EmptyToken)
  | String c0 rest =>
      let '(sign, token) :=
        if Ascii.eqb c0 "+" then (1, rest)
        else if Ascii.eqb c0 "-" then (-1, rest)
        else (1, token) in
      if Str.contains_d (Str.lower token) then
        let '(count_part, size_part) := Str.split_d (Str.lower token) in
        do count <- match count_part with
                    | EmptyString => OK 1
                    | _ => Str.int count_part
                    end;
        do size <- Str.int size_part;
        do term <- new_DiceTerm count size sign;
        OK (Some term, None)
      else
        match token with
        | EmptyString => Raise (ValueError InvalidModifier)
        | _ =>
            do v <- Str.int token;
            OK (None, Some {| value := v * sign |})
        end
  end.

(** *** [parse_expression] *)

(** The [for token in ...] loop, with the two lists it appends to. *)
Fixpoint parse_tokens (tokens : list string)
    (dice_terms : list DiceTerm) (modifiers : list ModifierTerm)
  : result (list DiceTerm * list ModifierTerm) :=
  match tokens with
  | [] => OK (dice_terms, modifiers)
  | token :: tokens' =>
      do parsed <- _parse_token token;
      match parsed with
      | (Some dice, _) => parse_tokens tokens' (dice_terms ++ [dice]) modifiers
      | (None, Some modifier) => parse_tokens tokens' dice_terms (modifiers ++ [modifier])
      | (None, None) => parse_tokens tokens' dice_terms modifiers
      end
  end.

Definition parse_expression (expr : string) : result DiceExpression :=
  let expr := Str.remove_spaces expr in
  match expr with
  | EmptyString => Raise (ValueError EmptyExpression)
  | _ =>
      do (dice_terms, modifiers) <- parse_tokens (findall expr) [] [];
      match dice_terms, modifiers with
      | [], [] => Raise (ValueError CouldNotParse)
      | _, _ => OK {| DiceExpression.dice := dice_terms;
                      DiceExpression.modifiers := modifiers |}
      end
  end.

(** *** [roll] *)

Module DiceRollResult.
Record t := { total : Z; dice_results : list (list Z); modifiers : list Z }.
End DiceRollResult.
Abbreviation DiceRollResult := DiceRollResult.t.

(** The builtin [sum] on integers. *)
Definition sum (l : list Z) : Z := fold_left Z.add l 0.

Section Rolling.
Context {G : Type} `{RandomSource G}.

(** [tuple(rng.randint(1, size) for _ in range(n))] *)
Fixpoint draw (size : Z) (n : nat) (g : G) : list Z * G :=
  match n with
  | O => ([], g)
  | S n' =>
      let '(r, g1) := randint 1 size g in
      let '(rs, g2) := draw size n' g1 in
      (r :: rs, g2)
  end.

(** The body of [for term in parsed.dice], on the list [dice_results]
    and the running [total]. *)
Definition roll_term (term : DiceTerm) (dice_results : list (list Z)) (total : Z) (g : G)
  : list (list Z) * Z * G :=
  if count term =? 0 then (dice_results ++ [[]], total, g)
  else
    let '(rolls, g') := draw (size term) (Z.to_nat (count term)) g in
    let subtotal := sum rolls * sign term in
    (dice_results ++ [if sign term >? 0 then rolls else map Z.opp rolls],
     total + subtotal, g').

Fixpoint roll_terms (terms : list DiceTerm) (dice_results : list (list Z)) (total : Z) (g : G)
  : list (list Z) * Z * G :=
  match terms with
  | [] => (dice_results, total, g)
  | term :: terms' =>
      let '(dice_results', total', g') := roll_term term dice_results total g in
      roll_terms terms' dice_results' total' g'
  end.

Definition roll (expr : string) (g : G) : result DiceRollResult * G :=
  match parse_expression expr with
  | Raise e => (Raise e, g)
  | OK parsed =>
      let '(dice_results, total, g') :=
        roll_terms (DiceExpression.dice parsed) [] (DiceExpression.modifier_total parsed) g in
      (OK {| DiceRollResult.total := total;
             DiceRollResult.dice_results := dice_results;
             DiceRollResult.modifiers := map value (DiceExpression.modifiers parsed) |},
       g')
  end.

(** *** The d20 helpers *)

Definition roll_d20 (g : G) : Z * G := randint 1 20 g.

Definition roll_with_advantage (g : G) : (Z * (Z * Z)) * G :=
  let '(first, g1) := randint 1 20 g in
  let '(second, g2) := randint 1 20 g1 in
  ((Z.max first second, (first, second)), g2).

Definition roll_with_disadvantage (g : G) : (Z * (Z * Z)) * G :=
  let '(first, g1) := randint 1 20 g in
  let '(second, g2) := randint 1 20 g1 in
  ((Z.min first second, (first, second)), g2).

End Rolling.

(** *** [expected_value] *)

(** [expected_value], with the loop of the source. *)
Fixpoint expected_terms (terms : list DiceTerm) (expected : Float.number)
  : result Float.number :=
  match terms with
  | [] => OK expected
  | term :: terms' =>
      do x <- Float.int_truediv (sign term * count term * (size term + 1)) 2;
      do expected' <- Float.add_float expected x;
      expected_terms terms' expected'
  end.

Definition expected_value (expr : string) : result Float.number :=
  do parsed <- parse_expression expr;
  expected_terms (DiceExpression.dice parsed)
                 (Float.Int (DiceExpression.modifier_total parsed)).

End Dice.

Import Dice.

(** ** rules.py *)

Module Rules.

Record CheckResult := {
  total : Z;
  modifier : Z;
  dc : Z;
  success : bool;
  natural : Z;
  roll_details : list Z
}.

Record ContestResult := {
  total_a : Z;
  total_b : Z;
  winner : option string;
  check_a : CheckResult;
  check_b : CheckResult
}.

Definition is_tie (r : ContestResult) : bool :=
  match winner r with None => true | Some _ => false end.

Section Resolve.
Context {G : Type} `{RandomSource G}.

Definition _roll_d20 (state : string) (g : G) : result (Z * list Z) * G :=
  let state := Str.lower state in
  if String.eqb state "normal" then
    let '(value, g') := roll_d20 g in
    (OK (value, [value]), g')
  else if String.eqb state "advantage" then
    let '((value, (first, second)), g') := roll_with_advantage g in
    (OK (value, [first; second]), g')
  else if String.eqb state "disadvantage" then
    let '((value, (first, second)), g') := roll_with_disadvantage g in
    (OK (value, [first; second]), g')
  else (Raise (ValueError BadAdvantageState), g).

Definition resolve_check (modifier dc : Z) (advantage : string) (g : G)
  : result CheckResult * G :=
  match _roll_d20 advantage g with
  | (Raise e, g') => (Raise e, g')
  | (OK (natural, detail), g') =>
      let total := natural + modifier in
      (OK {| total := total;
             modifier := modifier;
             dc := dc;
             success := total >=? dc;
             natural := natural;
             roll_details := detail |},
       g')
  end.

Definition resolve_contest (modifier_a modifier_b : Z)
    (advantage_a advantage_b : string) (g : G)
  : result ContestResult * G :=
  match resolve_check modifier_a 0 advantage_a g with
  | (Raise e, g1) => (Raise e, g1)
  | (OK check_a, g1) =>
      match resolve_check modifier_b 0 advantage_b g1 with
      | (Raise e, g2) => (Raise e, g2)
      | (OK check_b, g2) =>
          let total_a := total check_a in
          let total_b := total check_b in
          let winner :=
            if total_a >? total_b then Some "a"
            else if total_b >? total_a then Some "b"
            else None in
          (OK {| total_a := total_a;
                 total_b := total_b;
                 winner := winner;
                 check_a := check_a;
                 check_b := check_b |},
           g2)
      end
  end.

End Resolve.

End Rules.

(** ** abilities.py *)

Module Abilities.

Definition ABILITY_NAMES : list string :=
  ["strength"; "dexterity"; "constitution"; "intelligence"; "wisdom"; "charisma"].

Definition validate_score (score : Z) : result Z :=
  if negb ((1 <=? score) && (score <=? 30)) then Raise (ValueError ScoreOutOfRange)
  else OK score.

Definition modifier (score : Z) : result Z :=
  do s <- validate_score score;
  OK ((s - 10) / 2).

Record AbilityScores := {
  strength : Z;
  dexterity : Z;
  constitution : Z;
  intelligence : Z;
  wisdom : Z;
  charisma : Z
}.

(** [getattr(self, key)] on the six fields. *)
Definition getattr (a : AbilityScores) (key : string) : result Z :=
  if String.eqb key "strength" then OK (strength a)
  else if String.eqb key "dexterity" then OK (dexterity a)
  else if String.eqb key "constitution" then OK (constitution a)
  else if String.eqb key "intelligence" then OK (intelligence a)
  else if String.eqb key "wisdom" then OK (wisdom a)
  else if String.eqb key "charisma" then OK (charisma a)
  else Raise (AttributeError key).

(** [AbilityScores.__post_init__]: the loop over [ABILITY_NAMES]. *)
Fixpoint validate_fields (a : AbilityScores) (names : list string) : result unit :=
  match names with
  | [] => OK tt
  | ability :: names' =>
      do score <- getattr a ability;
      do _ <- validate_score score;
      validate_fields a names'
  end.

Definition AbilityScores_post_init (a : AbilityScores) : result AbilityScores :=
  do _ <- validate_fields a ABILITY_NAMES;
  OK a.

(** [AbilityScores(strength, dexterity, ...)] *)
Definition new_AbilityScores (strength dexterity constitution intelligence wisdom charisma : Z)
  : result AbilityScores :=
  AbilityScores_post_init
    {| strength := strength; dexterity := dexterity; constitution := constitution;
       intelligence := intelligence; wisdom := wisdom; charisma := charisma |}.

(** [AbilityScores.modifier] *)
Definition AbilityScores_modifier (a : AbilityScores) (ability : string) : result Z :=
  let key := Str.lower ability in
  if negb (bool_decide (key ∈ ABILITY_NAMES)) then Raise (KeyError ability)
  else
    do score <- getattr a key;
    modifier score.

(** [AbilityScores.__iter__]: the pairs [(ability, getattr(self,
    ability))] the generator yields, in the order of [names]. *)
Fixpoint iter_fields (a : AbilityScores) (names : list string)
  : result (list (string * Z)) :=
  match names with
  | [] => OK []
  | ability :: names' =>
      do score <- getattr a ability;
      do rest <- iter_fields a names';
      OK ((ability, score) :: rest)
  end.

Definition AbilityScores_iter (a : AbilityScores) : result (list (string * Z)) :=
  iter_fields a ABILITY_NAMES.

(** [AbilityScores.to_dict]: the dict comprehension over [ABILITY_NAMES],
    a later pair replacing an earlier one with the same key. *)
Definition to_dict (a : AbilityScores) : result (gmap string Z) :=
  do items <- iter_fields a ABILITY_NAMES;
  OK (fold_left (fun d item => <[fst item := snd item]> d) items ∅).

(** One pass of the loop of [from_mapping]: [scores[ability]] raises
    [KeyError], turned into the [KeyError] that names the ability; the
    value found goes through [validate_score] ([int()] leaves an [int] as
    it is). *)
Definition mapping_score (scores : gmap string Z) (ability : string) : result Z :=
  match scores !! ability with
  | None => Raise (KeyError ability)
  | Some score => validate_score score
  end.

(** [AbilityScores.from_mapping]: the loop over the six names of
    [ABILITY_NAMES], in their order, then [cls( **values)]. *)
Definition from_mapping (scores : gmap string Z) : result AbilityScores :=
  do strength <- mapping_score scores "strength";
  do dexterity <- mapping_score scores "dexterity";
  do constitution <- mapping_score scores "constitution";
  do intelligence <- mapping_score scores "intelligence";
  do wisdom <- mapping_score scores "wisdom";
  do charisma <- mapping_score scores "charisma";
  new_AbilityScores strength dexterity constitution intelligence wisdom charisma.

End Abilities.

(** ** character.py *)

Module Character.
Import Abilities.

Definition SKILL_ABILITIES : gmap string string :=
  list_to_map
    [("acrobatics", "dexterity");
     ("animal handling", "wisdom");
     ("arcana", "intelligence");
     ("athletics", "strength");
     ("deception", "charisma");
     ("history", "intelligence");
     ("insight", "wisdom");
     ("intimidation", "charisma");
     ("investigation", "intelligence");
     ("medicine", "wisdom");
     ("nature", "intelligence");
     ("perception", "wisdom");
     ("performance", "charisma");
     ("persuasion", "charisma");
     ("religion", "intelligence");
     ("sleight of hand", "dexterity");
     ("stealth", "dexterity");
     ("survival", "wisdom")].

Definition proficiency_bonus (level : Z) : result Z :=
  if (level <? 1) || (level >? 20) then Raise (ValueError LevelOutOfRange)
  else OK (2 + (level - 1) / 4).

Record Character := {
  name : string;
  level : Z;
  abilities : AbilityScores;
  proficient_skills : gset string;
  expertise_skills : gset string;
  proficient_saves : gset string
}.

Definition lower_all (names : gset string) : gset string := set_map Str.lower names.

Definition _normalise_sets (self : Character) : Character :=
  {| name := name self;
     level := level self;
     abilities := abilities self;
     proficient_skills := lower_all (proficient_skills self);
     expertise_skills := lower_all (expertise_skills self);
     proficient_saves := lower_all (proficient_saves self) |}.

(** [Character.__post_init__]; the object it leaves is the constructed
    character. *)
Definition Character_post_init (self : Character) : result Character :=
  match name self with
  | EmptyString => Raise (ValueError EmptyName)
  | _ =>
      do _ <- proficiency_bonus (level self);
      OK (_normalise_sets self)
  end.

Definition new_Character (name : string) (level : Z) (abilities : AbilityScores)
    (proficient_skills expertise_skills proficient_saves : gset string)
  : result Character :=
  Character_post_init
    {| name := name; level := level; abilities := abilities;
       proficient_skills := proficient_skills;
       expertise_skills := expertise_skills;
       proficient_saves := proficient_saves |}.

(** The property [Character.proficiency_bonus]. *)
Definition Character_proficiency_bonus (self : Character) : result Z :=
  proficiency_bonus (level self).

Definition ability_modifier (self : Character) (ability : string) : result Z :=
  AbilityScores_modifier (abilities self) ability.

Definition skill_modifier (self : Character) (skill : string) : result Z :=
  let key := Str.lower skill in
  match SKILL_ABILITIES !! key with
  | None => Raise (KeyError skill)
  | Some ability =>
      do mod' <- ability_modifier self ability;
      if bool_decide (key ∈ expertise_skills self) then
        do bonus <- Character_proficiency_bonus self;
        OK (mod' + 2 * bonus)
      else if bool_decide (key ∈ proficient_skills self) then
        do bonus <- Character_proficiency_bonus self;
        OK (mod' + bonus)
      else OK mod'
  end.

Definition passive_score (self : Character) (skill : string) : result Z :=
  do mod' <- skill_modifier self skill;
  OK (10 + mod').

Definition saving_throw_modifier (self : Character) (ability : string) : result Z :=
  let key := Str.lower ability in
  if negb (bool_decide (key ∈ ABILITY_NAMES)) then Raise (KeyError ability)
  else
    do mod' <- ability_modifier self key;
    if bool_decide (key ∈ proficient_saves self) then
      do bonus <- Character_proficiency_bonus self;
      OK (mod' + bonus)
    else OK mod'.

Definition ability_check (self : Character) (ability : string) (bonus : Z) : result Z :=
  do mod' <- ability_modifier self ability;
  OK (mod' + bonus).

End Character.

Import Rules Abilities Character.

(** * Specification

    The notions the properties below are stated with. *)

(** The advantage states [_roll_d20] accepts. *)
Definition valid_state (state : string) : Prop :=
  Str.lower state = "normal" \/ Str.lower state = "advantage"
  \/ Str.lower state = "disadvantage".

(** The invariant of a constructed [DiceTerm]. *)
Definition valid_term (term : DiceTerm) : Prop :=
  0 <= count term /\ 1 <= size term /\ (sign term = 1 \/ sign term = -1).

(** The sum of a list, written as a right fold. *)
Definition total_of (l : list Z) : Z := fold_right Z.add 0 l.

(** What a term shows for its raw draws: each die negated under sign -1. *)
Definition shown (term : DiceTerm) (raw : list Z) : list Z :=
  if sign term =? -1 then map Z.opp raw else raw.

(** The signed subtotals of the terms, given each term's raw draws. *)
Fixpoint dice_total (terms : list DiceTerm) (raws : list (list Z)) : Z :=
  match terms, raws with
  | term :: terms', raw :: raws' => sign term * total_of raw + dice_total terms' raws'
  | _, _ => 0
  end.

(** The raw draws of all terms, in parse order: [count] draws from
    1..[size] for each term, one term after the other on the same
    source. *)
Fixpoint draw_terms {G : Type} `{RandomSource G} (terms : list DiceTerm) (g : G)
  : list (list Z) * G :=
  match terms with
  | [] => ([], g)
  | term :: terms' =>
      let '(raw, g1) := draw (size term) (Z.to_nat (count term)) g in
      let '(raws, g2) := draw_terms terms' g1 in
      (raw :: raws, g2)
  end.

(** The terms [roll] draws for. *)
Definition is_rolled (term : DiceTerm) : bool := negb (count term =? 0).

(** The expression with every whitespace character removed. *)
Fixpoint remove_whitespace (s : string) : string :=
  match s with
  | EmptyString => EmptyString
  | String c r =>
      if Str.isspace c then remove_whitespace r else String c (remove_whitespace r)
  end.

(** The only whitespace of the string is the space character. *)
Fixpoint spaces_only (s : string) : bool :=
  match s with
  | EmptyString => true
  | String c r => (negb (Str.isspace c) || Ascii.eqb c " ") && spaces_only r
  end.

(** Twice the mean of a dice term: [sign * count * (size + 1)]. *)
Definition twice_mean (term : DiceTerm) : Z :=
  sign term * count term * (size term + 1).

(** The expected value of a parsed expression, as a rational: the sum
    over the dice terms of [sign * count * (size + 1) / 2] plus the sum of
    the modifier values. *)
Definition mean (parsed : DiceExpression) : Q :=
  (fold_right (fun term acc => inject_Z (twice_mean term) / 2 + acc) 0
     (DiceExpression.dice parsed)
   + inject_Z (total_of (map value (DiceExpression.modifiers parsed))))%Q.

(** Twice the sum of the means of the dice terms. *)
Definition twice_dice_mean (terms : list DiceTerm) : Z :=
  fold_right (fun term acc => twice_mean term + acc) 0 terms.

(** The sum of [count * (size + 1)] over the dice terms. *)
Definition dice_magnitude (terms : list DiceTerm) : Z :=
  fold_right (fun term acc => count term * (size term + 1) + acc) 0 terms.

(** The size of the numbers [expected_value] handles, in halves: twice
    the absolute modifier total plus [count * (size + 1)] for every dice
    term. *)
Definition magnitude (parsed : DiceExpression) : Z :=
  2 * Z.abs (DiceExpression.modifier_total parsed)
  + dice_magnitude (DiceExpression.dice parsed).

(** ** Binary64 on halves

    The numbers [expected_value] meets are integers and halves of
    integers.  [halves h] is the binary64 float of [h / 2] when
    [|h| < 2^53]: the mantissa of [h] shifted to 53 bits. *)

(** [p * 2^k] on positives, for [k >= 0]. *)
Definition shift (p : positive) (k : Z) : positive :=
  match k with
  | Zpos n => Pos.iter xO p n
  | _ => p
  end.

(** The number of binary digits of [p]. *)
Definition digits (p : positive) : Z := Zpos (digits2_pos p).

(** The rounding record of a mantissa with no bit shifted out. *)
Definition exact_record (m : positive) : shr_record :=
  {| shr_m := Zpos m; shr_r := false; shr_s := false |}.

(** The half-integer [h / 2], for [|h| < 2^53], as a binary64 float. *)
Definition halves (h : Z) : spec_float :=
  match h with
  | Z0 => S754_zero false
  | Zpos p => S754_finite false (shift p (53 - digits p)) (digits p - 54)
  | Zneg p => S754_finite true (shift p (53 - digits p)) (digits p - 54)
  end.

(** The integer with sign bit [s] and magnitude [p]. *)
Definition signed (s : bool) (p : positive) : Z := if s then Zneg p else Zpos p.

(** ** Notions for the further properties *)

(** The least and the greatest subtotal a dice term can contribute. *)
Definition term_low (term : DiceTerm) : Z :=
  if sign term =? -1 then - (count term * size term) else count term.

Definition term_high (term : DiceTerm) : Z :=
  if sign term =? -1 then - count term else count term * size term.

(** The range of the totals of a parsed expression. *)
Definition low_total (parsed : DiceExpression) : Z :=
  total_of (map term_low (DiceExpression.dice parsed))
  + total_of (map value (DiceExpression.modifiers parsed)).

Definition high_total (parsed : DiceExpression) : Z :=
  total_of (map term_high (DiceExpression.dice parsed))
  + total_of (map value (DiceExpression.modifiers parsed)).

(** A die as [dice_results] shows it: a face of the die, negated under
    sign -1. *)
Definition shown_die (term : DiceTerm) (v : Z) : Prop :=
  if sign term =? -1 then - size term <= v <= -1 else 1 <= v <= size term.

(** A scripted source: the values to draw, in order; a value outside the
    range asked for is clamped to it, and an exhausted script draws the
    least value. *)
Definition scripted_randint (lo hi : Z) (script : list Z) : Z * list Z :=
  match script with
  | [] => (lo, [])
  | v :: rest => (Z.max lo (Z.min hi v), rest)
  end.

#[export] Instance scripted : RandomSource (list Z).
Proof.
  refine {| randint := scripted_randint |}.
  intros lo hi [|v rest] Hle; cbn [scripted_randint fst]; lia.
Defined.

(** The script that makes every die of [terms] show [face term]. *)
Definition script_of (face : DiceTerm -> Z) (terms : list DiceTerm) : list Z :=
  concat (map (fun term => repeat (face term) (Z.to_nat (count term))) terms).

(** The faces that give the least and the greatest total. *)
Definition lowest_face (term : DiceTerm) : Z :=
  if sign term =? -1 then size term else 1.

Definition highest_face (term : DiceTerm) : Z :=
  if sign term =? -1 then 1 else size term.

(** The sign [int()] reads off the front of a literal, and the rest. *)
Definition split_sign (s : string) : bool * string :=
  match s with
  | String "+" r => (false, r)
  | String "-" r => (true, r)
  | _ => (false, s)
  end.

(** [int()] after the leading whitespace and the sign. *)
Definition int_after_sign (p : bool * string) : result Z :=
  let '(neg, s) := p in
  match Str.scan_digits s None 0 0 with
  | None => Raise (ValueError InvalidLiteral)
  | Some (v, n, rest) =>
      if (Str.int_max_str_digits <? n)%nat then Raise (ValueError DigitLimit)
      else
        match Str.skip_int_space rest with
        | EmptyString => OK (if neg then - v else v)
        | _ => Raise (ValueError InvalidLiteral)
        end
  end.

(** A scan result with its unread rest in lower case. *)
Definition lower_rest (r : Z * nat * string) : Z * nat * string :=
  let '(v, n, rest) := r in (v, n, Str.lower rest).

(** A mapping holds a score of the range 1..30 under [name]. *)
Definition score_ok (scores : gmap string Z) (name : string) : Prop :=
  exists v, scores !! name = Some v /\ 1 <= v <= 30.

(** What [from_mapping] raises at [name]: [KeyError] for a missing key,
    [ValueError] for a score outside 1..30. *)
Definition score_error (scores : gmap string Z) (name : string) (e : exn) : Prop :=
  (scores !! name = None /\ e = KeyError name)
  \/ (exists v, scores !! name = Some v /\ ~ 1 <= v <= 30
                /\ e = ValueError ScoreOutOfRange).

(** The six fields in the order of [ABILITY_NAMES]. *)
Definition fields (a : AbilityScores) : list Z :=
  [strength a; dexterity a; constitution a; intelligence a; wisdom a; charisma a].

(** ** Concrete inputs *)

Definition nyx_scores : AbilityScores :=
  {| strength := 15; dexterity := 16; constitution := 14;
     intelligence := 12; wisdom := 10; charisma := 8 |}.

(** The rogue of the package's tests: proficient and expert in stealth,
    dexterity 16, level 5. *)
Definition nyx : Character :=
  {| name := "Nyx"; level := 5; abilities := nyx_scores;
     proficient_skills := {["stealth"; "acrobatics"]};
     expertise_skills := {["stealth"]};
     proficient_saves := {["dexterity"]} |}.

Definition parsed_2d6_minus_1d4_plus_3 : DiceExpression :=
  {| DiceExpression.dice := [{| count := 2; size := 6; sign := 1 |};
                             {| count := 1; size := 4; sign := -1 |}];
     DiceExpression.modifiers := [{| value := 3 |}] |}.

Definition parsed_0d6_plus_1d4 : DiceExpression :=
  {| DiceExpression.dice := [{| count := 0; size := 6; sign := 1 |};
                             {| count := 1; size := 4; sign := 1 |}];
     DiceExpression.modifiers := [] |}.

Definition parsed_1d6 : DiceExpression :=
  {| DiceExpression.dice := [{| count := 1; size := 6; sign := 1 |}];
     DiceExpression.modifiers := [] |}.

Definition parsed_2d4_plus_2 : DiceExpression :=
  {| DiceExpression.dice := [{| count := 2; size := 4; sign := 1 |}];
     DiceExpression.modifiers := [{| value := 2 |}] |}.

Definition parsed_two_d1_plus_2p53 : DiceExpression :=
  {| DiceExpression.dice := [{| count := 1; size := 1; sign := 1 |};
                             {| count := 1; size := 1; sign := 1 |}];
     DiceExpression.modifiers := [{| value := 9007199254740992 |}] |}.

(** * Properties *)

(** ** The model on concrete inputs *)

Example int_plain : Str.int "007" = OK 7.
Proof. reflexivity. Qed.
Example int_underscore : Str.int "1_000" = OK 1000.
Proof. reflexivity. Qed.
Example int_padded : Str.int (tab +++ "-12" +++ tab) = OK (-12).
Proof. reflexivity. Qed.
Example int_inner_space : Str.int ("1" +++ tab +++ "0") = Raise (ValueError InvalidLiteral).
Proof. reflexivity. Qed.
Example int_bad_underscore : Str.int "1__0" = Raise (ValueError InvalidLiteral).
Proof. reflexivity. Qed.
Example int_empty : Str.int "" = Raise (ValueError InvalidLiteral).
Proof. reflexivity. Qed.

Example findall_terms : findall "2d6+3-1d4" = ["2d6"; "+3"; "-1d4"].
Proof. reflexivity. Qed.
Example findall_dangling : findall "2d6+" = ["2d6"].
Proof. reflexivity. Qed.
Example findall_double_sign : findall "+-3" = ["-3"].
Proof. reflexivity. Qed.
Example findall_lone_sign : findall "+" = [].
Proof. reflexivity. Qed.
Example findall_tab_token : findall ("2d6+" +++ tab) = ["2d6"; "+" +++ tab].
Proof. reflexivity. Qed.

Example parse_d20 :
  parse_expression "d20"
  = OK {| DiceExpression.dice := [{| count := 1; size := 20; sign := 1 |}];
          DiceExpression.modifiers := [] |}.
Proof. reflexivity. Qed.
Example parse_mixed :
  parse_expression "2D6 + 3 - 1d4"
  = OK {| DiceExpression.dice := [{| count := 2; size := 6; sign := 1 |};
                                  {| count := 1; size := 4; sign := -1 |}];
          DiceExpression.modifiers := [{| value := 3 |}] |}.
Proof. reflexivity. Qed.
Example parse_modifier_only :
  parse_expression "+5"
  = OK {| DiceExpression.dice := []; DiceExpression.modifiers := [{| value := 5 |}] |}.
Proof. reflexivity. Qed.
Example parse_zero_size : parse_expression "2d0" = Raise (ValueError NonPositiveSize).
Proof. reflexivity. Qed.
Example parse_empty : parse_expression "  " = Raise (ValueError EmptyExpression).
Proof. reflexivity. Qed.
Example parse_lone_sign : parse_expression "+" = Raise (ValueError CouldNotParse).
Proof. reflexivity. Qed.
Example parse_only_tab : parse_expression tab = Raise (ValueError EmptyToken).
Proof. reflexivity. Qed.

Example roll_2d6_plus_1 :
  fst (roll "2d6+1" (7 : Z))
  = OK {| DiceRollResult.total := 6;
          DiceRollResult.dice_results := [[1; 4]];
          DiceRollResult.modifiers := [1] |}.
Proof. vm_compute. reflexivity. Qed.

Example nyx_stealth :
  (do c <- new_Character "Nyx" 5 nyx_scores {["stealth"; "acrobatics"]} {["Stealth"]} {["dexterity"]};
   skill_modifier c "STEALTH") = OK 9.
Proof. vm_compute. reflexivity. Qed.

Example nyx_constructed :
  new_AbilityScores 15 16 14 12 10 8 = OK nyx_scores
  /\ new_Character "Nyx" 5 nyx_scores
        {["Stealth"; "acrobatics"]} {["STEALTH"]} {["Dexterity"]}
      = OK nyx.
Proof. split; vm_compute; reflexivity. Qed.

Example proficiency_progression :
  map proficiency_bonus [1; 5; 13; 20; 0]
  = [OK 2; OK 3; OK 5; OK 6; Raise (ValueError LevelOutOfRange)].
Proof. reflexivity. Qed.

Example unknown_skill : skill_modifier nyx "cooking" = Raise (KeyError "cooking").
Proof. vm_compute. reflexivity. Qed.

(** ** The parser *)

Lemma remove_spaces_idempotent (s : string) :
  Str.remove_spaces (Str.remove_spaces s) = Str.remove_spaces s.
Proof.
  induction s as [|c r IH]; cbn; [reflexivity|].
  destruct (Ascii.eqb c " ") eqn:E; [exact IH|]. cbn. rewrite E, IH. reflexivity.
Qed.

(** Space characters are ignored wherever they stand. *)
Lemma parse_ignores_spaces (expr : string) :
  parse_expression (Str.remove_spaces expr) = parse_expression expr.
Proof. unfold parse_expression. rewrite remove_spaces_idempotent. reflexivity. Qed.

(** With spaces as its only whitespace, an expression parses as it does
    with its whitespace removed. *)
Lemma parse_ignores_whitespace_of_spaces (expr : string) :
  spaces_only expr = true ->
  parse_expression (remove_whitespace expr) = parse_expression expr.
Proof.
  intros Hspaces. rewrite <- (parse_ignores_spaces expr). f_equal.
  induction expr as [|c r IH]; [reflexivity|].
  cbn [spaces_only] in Hspaces. apply andb_prop in Hspaces as [Hc Hr].
  cbn [remove_whitespace Str.remove_spaces]. rewrite (IH Hr).
  destruct (Ascii.eqb_spec c " ") as [->|Hne]; [reflexivity|].
  rewrite orb_false_r in Hc. apply negb_true_iff in Hc. rewrite Hc. reflexivity.
Qed.

(** C6, on the code: a tab between two digits is not ignored.  The
    expression "1<TAB>0" is rejected by [int()], while the same
    expression without its whitespace, "10", parses; a space at the same
    place is ignored. *)
Theorem tab_between_digits_rejected :
  parse_expression ("1" +++ tab +++ "0") = Raise (ValueError InvalidLiteral)
  /\ remove_whitespace ("1" +++ tab +++ "0") = "10"
  /\ parse_expression "10"
     = OK {| DiceExpression.dice := [];
             DiceExpression.modifiers := [{| value := 10 |}] |}
  /\ parse_expression "1 0" = parse_expression "10".
Proof. repeat split. Qed.

Lemma append_empty (s : string) : EmptyString +++ s = s.
Proof. reflexivity. Qed.

Lemma append_String (a : ascii) (r s : string) : String a r +++ s = String a (r +++ s).
Proof. reflexivity. Qed.

Lemma take_run_trailing_sign (s : string) (c : ascii) :
  is_sign c = true -> take_run (s +++ String c EmptyString) = take_run s.
Proof.
  intros Hc. induction s as [|a r IH].
  - rewrite append_empty. cbn [take_run]. rewrite Hc. reflexivity.
  - rewrite append_String. cbn [take_run].
    destruct (is_sign a); [reflexivity|]. rewrite IH. reflexivity.
Qed.

Lemma findall_trailing_sign (s : string) (c : ascii) :
  is_sign c = true ->
  forall inside,
    findall_from (s +++ String c EmptyString) inside = findall_from s inside.
Proof.
  intros Hc. induction s as [|a r IH]; intros inside.
  - rewrite append_empty. cbn [findall_from match_token take_run].
    rewrite Hc. destruct inside; reflexivity.
  - rewrite append_String. cbn [findall_from]. destruct inside as [|k]; [|apply IH].
    cbn [match_token take_run]. rewrite (take_run_trailing_sign r c Hc).
    destruct (is_sign a).
    + destruct (take_run r); rewrite ?IH; reflexivity.
    + rewrite IH. reflexivity.
Qed.

Lemma remove_spaces_app (a b : string) :
  Str.remove_spaces (a +++ b) = Str.remove_spaces a +++ Str.remove_spaces b.
Proof.
  induction a as [|c r IH].
  - reflexivity.
  - rewrite append_String. cbn [Str.remove_spaces].
    destruct (Ascii.eqb c " "); rewrite IH; reflexivity.
Qed.

(** A sign at the end of an expression is dropped by the tokenizer: the
    expression parses as it does without it. *)
Lemma trailing_sign_dropped (expr : string) (c : ascii) (parsed : DiceExpression) :
  is_sign c = true ->
  parse_expression expr = OK parsed ->
  parse_expression (expr +++ String c EmptyString) = OK parsed.
Proof.
  intros Hc. unfold parse_expression. rewrite remove_spaces_app.
  assert (Hkeep : Str.remove_spaces (String c EmptyString) = String c EmptyString).
  { unfold is_sign in Hc. cbn [Str.remove_spaces].
    destruct (Ascii.eqb_spec c "+") as [->|_]; [reflexivity|].
    destruct (Ascii.eqb_spec c "-") as [->|_]; [reflexivity|discriminate Hc]. }
  rewrite Hkeep.
  destruct (Str.remove_spaces expr) as [|a r]; [discriminate|].
  unfold findall. rewrite (findall_trailing_sign (String a r) c Hc).
  rewrite append_String. intros Hok. exact Hok.
Qed.

(** C5, on the code: a sign with nothing after it never reaches
    [_parse_token]; the tokenizer skips it.  "2d6+" parses as "2d6" and
    "+-3" as "-3". *)
Theorem dangling_sign_accepted :
  findall "2d6+" = ["2d6"]
  /\ parse_expression "2d6+"
     = OK {| DiceExpression.dice := [{| count := 2; size := 6; sign := 1 |}];
             DiceExpression.modifiers := [] |}
  /\ findall "+-3" = ["-3"]
  /\ parse_expression "+-3"
     = OK {| DiceExpression.dice := [];
             DiceExpression.modifiers := [{| value := -3 |}] |}.
Proof. repeat split. Qed.

(** ** Rolling an expression *)

Lemma sum_total_of (l : list Z) : Dice.sum l = total_of l.
Proof.
  unfold Dice.sum, total_of.
  assert (Hgen : forall a, fold_left Z.add l a = a + fold_right Z.add 0 l).
  { induction l as [|x l IH]; intros a; cbn; [lia|]. rewrite IH. lia. }
  rewrite Hgen. lia.
Qed.

Lemma new_DiceTerm_valid (c s sg : Z) (term : DiceTerm) :
  new_DiceTerm c s sg = OK term ->
  term = {| count := c; size := s; sign := sg |} /\ valid_term term.
Proof.
  unfold new_DiceTerm, DiceTerm_post_init, valid_term. cbn [count size sign].
  destruct (Z.ltb_spec c 0); [discriminate|].
  destruct (Z.leb_spec s 0); [discriminate|].
  destruct (Z.eqb_spec sg 1), (Z.eqb_spec sg (-1)); cbn [orb negb];
    intros Hok; inversion Hok; subst; cbn; try discriminate; repeat split; lia.
Qed.

Lemma parse_token_valid (token : string) (term : DiceTerm) (m : option ModifierTerm) :
  _parse_token token = OK (Some term, m) -> valid_term term.
Proof.
  unfold _parse_token.
  destruct (Str.strip token) as [|c0 rest]; [discriminate|].
  destruct (if Ascii.eqb c0 "+" then (1, rest)
            else if Ascii.eqb c0 "-" then (-1, rest) else (1, String c0 rest))
    as [sg tok].
  destruct (Str.contains_d (Str.lower tok)).
  - destruct (Str.split_d (Str.lower tok)) as [count_part size_part].
    destruct (match count_part with EmptyString => OK 1 | _ => Str.int count_part end)
      as [c|]; [|discriminate]. cbn [bind].
    destruct (Str.int size_part) as [s|]; [|discriminate]. cbn [bind].
    destruct (new_DiceTerm c s sg) as [t|] eqn:Hnew; [|discriminate]. cbn [bind].
    intros Hok. inversion Hok; subst. apply (new_DiceTerm_valid _ _ _ _ Hnew).
  - destruct tok; [discriminate|].
    destruct (Str.int _); cbn [bind]; discriminate.
Qed.

Lemma parse_tokens_valid (tokens : list string) :
  forall dice_terms modifiers dice_terms' modifiers',
    Forall valid_term dice_terms ->
    parse_tokens tokens dice_terms modifiers = OK (dice_terms', modifiers') ->
    Forall valid_term dice_terms'.
Proof.
  induction tokens as [|token tokens IH]; intros ds ms ds' ms' Hvalid; cbn.
  - intros Hok. inversion Hok; subst. exact Hvalid.
  - destruct (_parse_token token) as [[[term|] m]|] eqn:Htok; cbn [bind].
    + apply IH. apply Forall_app. split; [exact Hvalid|].
      apply Forall_cons. split; [|apply Forall_nil; exact I].
      apply (parse_token_valid _ _ _ Htok).
    + destruct m; apply IH; exact Hvalid.
    + discriminate.
Qed.

(** Every dice term of a parsed expression satisfies the invariant. *)
Lemma parse_expression_valid (expr : string) (parsed : DiceExpression) :
  parse_expression expr = OK parsed ->
  Forall valid_term (DiceExpression.dice parsed).
Proof.
  unfold parse_expression.
  destruct (Str.remove_spaces expr) as [|c r]; [discriminate|].
  destruct (parse_tokens (findall (String c r)) [] []) as [[ds ms]|] eqn:Htoks;
    cbn [bind]; [|discriminate].
  assert (Hvalid : Forall valid_term ds).
  { apply (parse_tokens_valid _ _ _ _ _ (List.Forall_nil _) Htoks). }
  destruct ds, ms; try discriminate; intros Hok; inversion Hok; subst; exact Hvalid.
Qed.

Section RollFacts.
Context {G : Type} `{RandomSource G}.

Lemma draw_length (size : Z) (n : nat) (g : G) :
  length (fst (draw size n g)) = n.
Proof.
  revert g. induction n as [|n IH]; intros g; cbn; [reflexivity|].
  destruct (randint 1 size g) as [r g1].
  specialize (IH g1). destruct (draw size n g1) as [rs g2]. cbn in *. lia.
Qed.

Lemma draw_range (size : Z) (n : nat) (g : G) :
  1 <= size -> Forall (fun v => 1 <= v <= size) (fst (draw size n g)).
Proof.
  intros Hsize. revert g. induction n as [|n IH]; intros g; cbn; [constructor|].
  pose proof (randint_range 1 size g Hsize) as Hr.
  destruct (randint 1 size g) as [r g1].
  specialize (IH g1). destruct (draw size n g1) as [rs g2]. cbn in *.
  constructor; assumption.
Qed.

(** One pass of the loop body, in terms of the term's raw draws. *)
Lemma roll_term_spec (term : DiceTerm) (dice_results : list (list Z)) (total : Z) (g : G) :
  valid_term term ->
  let raw := fst (draw (size term) (Z.to_nat (count term)) g) in
  roll_term term dice_results total g
  = (dice_results ++ [shown term raw], total + sign term * total_of raw,
     snd (draw (size term) (Z.to_nat (count term)) g)).
Proof.
  intros (Hcount & Hsize & Hsign). cbv zeta. unfold roll_term, shown.
  destruct (Z.eqb_spec (count term) 0) as [E|E].
  - rewrite E. change (Z.to_nat 0) with 0%nat.
    cbn [draw fst snd total_of fold_right map].
    replace (total + sign term * 0) with total by lia.
    destruct (sign term =? -1); reflexivity.
  - destruct (draw (size term) (Z.to_nat (count term)) g) as [rolls g'].
    cbn [fst snd]. rewrite sum_total_of.
    replace (total_of rolls * sign term) with (sign term * total_of rolls) by lia.
    destruct Hsign as [-> | ->]; reflexivity.
Qed.

(** The whole loop: one entry per term, in order, after the entries
    already recorded; the subtotals added to the running total; the
    source advanced by all draws. *)
Lemma roll_terms_spec (terms : list DiceTerm) :
  Forall valid_term terms ->
  forall dice_results total g,
    roll_terms terms dice_results total g
    = (dice_results ++ zip_with shown terms (fst (draw_terms terms g)),
       total + dice_total terms (fst (draw_terms terms g)),
       snd (draw_terms terms g)).
Proof.
  induction 1 as [|term terms Hterm _ IH]; intros acc total g.
  - cbn. rewrite app_nil_r. f_equal. f_equal. lia.
  - cbn [roll_terms draw_terms].
    rewrite (roll_term_spec term acc total g Hterm).
    destruct (draw (size term) (Z.to_nat (count term)) g) as [raw g1]. cbn [fst snd].
    rewrite IH. destruct (draw_terms terms g1) as [raws g2]. cbn [fst snd].
    cbn [zip_with dice_total]. rewrite <- app_assoc. cbn [app].
    f_equal. f_equal. lia.
Qed.

Lemma draw_terms_shape (terms : list DiceTerm) (g : G) :
  Forall valid_term terms ->
  Forall2 (fun term raw =>
             length raw = Z.to_nat (count term)
             /\ Forall (fun v => 1 <= v <= size term) raw)
          terms (fst (draw_terms terms g)).
Proof.
  intros Hvalid. revert g.
  induction Hvalid as [|term terms (Hc & Hs & Hsg) _ IH]; intros g; cbn.
  - constructor.
  - pose proof (draw_length (size term) (Z.to_nat (count term)) g) as Hlen.
    pose proof (draw_range (size term) (Z.to_nat (count term)) g Hs) as Hran.
    destruct (draw (size term) (Z.to_nat (count term)) g) as [raw g1].
    specialize (IH g1). destruct (draw_terms terms g1) as [raws g2]. cbn in *.
    constructor; [split; assumption | exact IH].
Qed.

(** C1: when the expression parses, [roll] returns a result whose
    [total] is the sum over the dice terms, in parse order, of
    [sign * sum(raw draws)] plus the sum of the modifier values; whose
    [dice_results] holds one sequence per dice term, in parse order, with
    every die negated when the term's sign is -1; and whose [modifiers] is
    the list of the modifier values.  The raw draws of a term are [count]
    values of the range 1..[size], taken from the source one term after the
    other. *)
Theorem roll_result (expr : string) (parsed : DiceExpression) (g : G) :
  parse_expression expr = OK parsed ->
  let terms := DiceExpression.dice parsed in
  let values := map value (DiceExpression.modifiers parsed) in
  let raws := fst (draw_terms terms g) in
  roll expr g
  = (OK {| DiceRollResult.total := dice_total terms raws + total_of values;
           DiceRollResult.dice_results := zip_with shown terms raws;
           DiceRollResult.modifiers := values |},
     snd (draw_terms terms g))
  /\ Forall2 (fun term raw =>
                length raw = Z.to_nat (count term)
                /\ Forall (fun v => 1 <= v <= size term) raw)
             terms raws.
Proof.
  intros Hparse. cbv zeta.
  pose proof (parse_expression_valid _ _ Hparse) as Hvalid.
  split; [|apply draw_terms_shape; exact Hvalid].
  unfold roll. rewrite Hparse. rewrite (roll_terms_spec _ Hvalid).
  unfold DiceExpression.modifier_total. fold (Dice.sum (map value (DiceExpression.modifiers parsed))).
  rewrite sum_total_of. cbn [app].
  rewrite (Z.add_comm (total_of _) (dice_total _ _)). reflexivity.
Qed.

End RollFacts.

Section ZeroCount.
Context {G : Type} `{RandomSource G}.

Lemma roll_term_zero (term : DiceTerm) (dice_results : list (list Z)) (total : Z) (g : G) :
  count term = 0 ->
  roll_term term dice_results total g = (dice_results ++ [[]], total, g).
Proof. intros E. unfold roll_term. rewrite E. reflexivity. Qed.

(** The total and the state the loop body leaves do not depend on the
    entries recorded so far. *)
Lemma roll_term_frame (term : DiceTerm) (acc acc' : list (list Z)) (total : Z) (g : G) :
  snd (fst (roll_term term acc total g)) = snd (fst (roll_term term acc' total g))
  /\ snd (roll_term term acc total g) = snd (roll_term term acc' total g).
Proof.
  unfold roll_term. destruct (count term =? 0); [split; reflexivity|].
  destruct (draw (size term) (Z.to_nat (count term)) g); split; reflexivity.
Qed.

(** Dropping the terms with [count = 0] changes neither the total nor
    the state of the source after the loop. *)
Lemma roll_terms_without_zero (terms : list DiceTerm) :
  forall acc acc' total g,
    snd (fst (roll_terms terms acc total g))
    = snd (fst (roll_terms (List.filter is_rolled terms) acc' total g))
    /\ snd (roll_terms terms acc total g)
       = snd (roll_terms (List.filter is_rolled terms) acc' total g).
Proof.
  induction terms as [|term terms IH]; intros acc acc' total g.
  - split; reflexivity.
  - cbn [roll_terms List.filter]. destruct (is_rolled term) eqn:Hrolled.
    + cbn [roll_terms].
      destruct (roll_term_frame term acc acc' total g) as [Ht Hg].
      destruct (roll_term term acc total g) as [[acc1 total1] g1].
      destruct (roll_term term acc' total g) as [[acc2 total2] g2].
      cbn [fst snd] in Ht, Hg. subst total2 g2. apply IH.
    + unfold is_rolled in Hrolled. apply negb_false_iff, Z.eqb_eq in Hrolled.
      rewrite (roll_term_zero term acc total g Hrolled). apply IH.
Qed.

(** C8: in a parsed expression a dice term with [count = 0] gets the empty
    list at its position of [dice_results]; its pass through the loop adds
    nothing to the total and leaves the random source in the state it
    found; so the total and the final state of the source are those of
    the same roll without the zero-count terms. *)
Theorem zero_count_term_draws_nothing (expr : string) (parsed : DiceExpression) (g : G) :
  parse_expression expr = OK parsed ->
  exists res g',
    roll expr g = (OK res, g')
    /\ (forall (i : nat) (term : DiceTerm),
          DiceExpression.dice parsed !! i = Some term ->
          count term = 0 ->
          DiceRollResult.dice_results res !! i = Some []
          /\ forall dice_results total gi,
               roll_term term dice_results total gi = (dice_results ++ [[]], total, gi))
    /\ (let rolled := List.filter is_rolled (DiceExpression.dice parsed) in
        let start := DiceExpression.modifier_total parsed in
        DiceRollResult.total res = snd (fst (roll_terms rolled [] start g))
        /\ g' = snd (roll_terms rolled [] start g)).
Proof.
  intros Hparse.
  pose proof (parse_expression_valid _ _ Hparse) as Hvalid.
  pose proof (roll_terms_spec _ Hvalid [] (DiceExpression.modifier_total parsed) g) as Hspec.
  pose proof (roll_terms_without_zero (DiceExpression.dice parsed) [] []
                (DiceExpression.modifier_total parsed) g) as [Htot Hsrc].
  unfold roll. rewrite Hparse.
  destruct (roll_terms (DiceExpression.dice parsed) [] (DiceExpression.modifier_total parsed) g)
    as [[results total] g'] eqn:Hloop.
  eexists _, g'. split; [reflexivity|].
  cbn [DiceRollResult.dice_results DiceRollResult.total fst snd] in *.
  split; [|split; assumption].
  intros i term Hi Hzero. split; [|intros; apply roll_term_zero; exact Hzero].
  injection Hspec as Hres _ _. rewrite Hres. cbn [app].
  destruct (Forall2_lookup_l _ _ _ _ _ (draw_terms_shape _ g Hvalid) Hi)
    as (raw & Hraw & Hlen & _).
  rewrite lookup_zip_with, Hi, Hraw. cbn.
  rewrite Hzero in Hlen. destruct raw; [|discriminate Hlen].
  unfold shown. destruct (sign term =? -1); reflexivity.
Qed.

End ZeroCount.

Lemma roll_result_witness :
  roll "2d6-1d4+3" (7 : Z)
  = (OK {| DiceRollResult.total := 1 + 4 - 3 + 3;
           DiceRollResult.dice_results := [[1; 4]; [-3]];
           DiceRollResult.modifiers := [3] |},
     712265938)
  /\ Forall2 (fun term raw =>
                length raw = Z.to_nat (count term)
                /\ Forall (fun v => 1 <= v <= size term) raw)
             (DiceExpression.dice parsed_2d6_minus_1d4_plus_3) [[1; 4]; [3]].
Proof.
  exact (roll_result "2d6-1d4+3" parsed_2d6_minus_1d4_plus_3 (7 : Z) eq_refl).
Defined.

Lemma zero_count_term_draws_nothing_witness :
  exists res g',
    roll "0d6+1d4" (7 : Z) = (OK res, g')
    /\ DiceRollResult.dice_results res !! 0%nat = Some []
    /\ (DiceRollResult.total res, g') = (1, lcg_step 7)
    /\ roll "1d4" (7 : Z)
       = (OK {| DiceRollResult.total := 1;
                DiceRollResult.dice_results := [[1]];
                DiceRollResult.modifiers := [] |},
          lcg_step 7).
Proof.
  destruct (zero_count_term_draws_nothing "0d6+1d4" parsed_0d6_plus_1d4 (7 : Z) eq_refl)
    as (res & g' & Hroll & Hzero & Htotal & Hsource).
  exists res, g'. split; [exact Hroll|].
  split; [apply (Hzero 0%nat {| count := 0; size := 6; sign := 1 |}); reflexivity|].
  split; [rewrite Htotal, Hsource; vm_compute; reflexivity|].
  vm_compute. reflexivity.
Defined.

(** ** [expected_value] and binary64

    Every step of [expected_value] is exact as long as the numbers, in
    halves, stay below [2^53]: the division by two, the conversion of the
    modifier total, and each addition. *)

Lemma iter_xO_value (p n : positive) : Zpos (Pos.iter xO p n) = Zpos p * 2 ^ Zpos n.
Proof.
  induction n as [|n IH] using Pos.peano_ind.
  - cbn. lia.
  - rewrite Pos.iter_succ, Pos2Z.inj_succ, Z.pow_succ_r by lia.
    rewrite Pos2Z.inj_xO, IH. lia.
Qed.

Lemma shift_value (p : positive) (k : Z) : 0 <= k -> Zpos (shift p k) = Zpos p * 2 ^ k.
Proof.
  intros Hk. destruct k as [|n|n]; cbn [shift]; [lia | apply iter_xO_value | lia].
Qed.

Lemma digits_pos (p : positive) : 1 <= digits p.
Proof. unfold digits. lia. Qed.

Lemma digits_bounds (p : positive) : 2 ^ (digits p - 1) <= Zpos p < 2 ^ digits p.
Proof.
  unfold digits. induction p as [p IH|p IH|]; cbn [digits2_pos]; [| |cbn; lia].
  all: rewrite Pos2Z.inj_succ.
  all: replace (Z.succ (Zpos (digits2_pos p)) - 1)
         with (Z.succ (Zpos (digits2_pos p) - 1)) by lia.
  all: rewrite !Z.pow_succ_r by lia; lia.
Qed.

Lemma digits_le (p : positive) (n : Z) : Zpos p < 2 ^ n -> digits p <= n.
Proof.
  intros Hlt. destruct (Z.le_gt_cases (digits p) n) as [Hle|Hgt]; [exact Hle|].
  pose proof (digits_bounds p) as [Hlow _].
  assert (Hn : 0 <= n).
  { destruct (Z.le_gt_cases 0 n); [assumption|]. rewrite Z.pow_neg_r in Hlt by lia. lia. }
  pose proof (Z.pow_le_mono_r 2 n (digits p - 1)). lia.
Qed.

Lemma digits_xO (p : positive) : digits (xO p) = digits p + 1.
Proof. unfold digits. cbn [digits2_pos]. lia. Qed.

Lemma digits_iter_xO (p n : positive) : digits (Pos.iter xO p n) = digits p + Zpos n.
Proof.
  induction n as [|n IH] using Pos.peano_ind.
  - cbn [Pos.iter]. apply digits_xO.
  - rewrite Pos.iter_succ, digits_xO, IH. lia.
Qed.

Lemma digits_shift (p : positive) (k : Z) : 0 <= k -> digits (shift p k) = digits p + k.
Proof.
  intros Hk. destruct k as [|n|n]; cbn [shift]; [lia | apply digits_iter_xO | lia].
Qed.

Lemma shift_shift (p : positive) (a b : Z) :
  0 <= a -> 0 <= b -> shift (shift p a) b = shift p (a + b).
Proof.
  intros Ha Hb. apply Pos2Z.inj.
  rewrite !shift_value by lia. rewrite Z.pow_add_r by lia. lia.
Qed.

(** SpecFloat's own iterator is [Pos.iter]. *)
Lemma iter_pos_iter {A : Type} (f : A -> A) (n : positive) (x : A) :
  SpecFloat.iter_pos f n x = Pos.iter f x n.
Proof.
  revert x. induction n as [n IH|n IH|]; intros x; cbn [SpecFloat.iter_pos Pos.iter].
  - rewrite !IH. rewrite <- !Pos.iter_swap. reflexivity.
  - rewrite !IH. reflexivity.
  - reflexivity.
Qed.

(** Shifting right over zero bits loses nothing. *)
Lemma shr_exact (p n : positive) :
  SpecFloat.iter_pos shr_1 n (exact_record (Pos.iter xO p n)) = exact_record p.
Proof.
  rewrite iter_pos_iter.
  induction n as [|n IH] using Pos.peano_ind.
  - reflexivity.
  - rewrite !Pos.iter_succ, <- Pos.iter_swap. exact IH.
Qed.

(** The truncation step of the rounding: a mantissa [p * 2^K] of at
    least 53 digits is brought back to 53 digits with nothing lost. *)
Lemma shr_fexp_exact (p : positive) (K e : Z) :
  digits p <= 53 -> 53 - digits p <= K -> -1000 <= e + K <= 900 ->
  shr_fexp Float.prec Float.emax (Zpos (shift p K)) e loc_Exact
  = (exact_record (shift p (53 - digits p)), e + K + digits p - 53).
Proof.
  intros Hd HK Hx. pose proof (digits_pos p) as Hd1.
  unfold shr_fexp. cbn [Zdigits2 shr_record_of_loc].
  fold (digits (shift p K)). rewrite digits_shift by lia.
  replace (fexp Float.prec Float.emax (digits p + K + e) - e)
    with (K - (53 - digits p))
    by (unfold fexp, emin, Float.prec, Float.emax; lia).
  fold (exact_record (shift p K)).
  destruct (K - (53 - digits p)) as [|n|n] eqn:Hn; [| |lia].
  - cbn [shr]. replace K with (53 - digits p) by lia. f_equal. lia.
  - cbn [shr].
    replace (shift p K) with (Pos.iter xO (shift p (53 - digits p)) n).
    + rewrite shr_exact. f_equal. lia.
    + change (Pos.iter xO (shift p (53 - digits p)) n)
        with (shift (shift p (53 - digits p)) (Zpos n)).
      rewrite shift_shift by lia. f_equal. lia.
Qed.

(** Rounding [p * 2^K * 2^e], for [p] of at most 53 digits, gives the
    float with the mantissa of [p] on 53 bits: no bit is rounded. *)
Lemma round_aux_exact (s : bool) (p : positive) (K e : Z) :
  digits p <= 53 -> 53 - digits p <= K -> -1000 <= e + K <= 900 ->
  binary_round_aux Float.prec Float.emax s (Zpos (shift p K)) e loc_Exact
  = S754_finite s (shift p (53 - digits p)) (e + K + digits p - 53).
Proof.
  intros Hd HK Hx. pose proof (digits_pos p) as Hd1.
  unfold binary_round_aux.
  rewrite (shr_fexp_exact p K e Hd HK Hx).
  cbn [exact_record shr_m loc_of_shr_record round_nearest_even].
  rewrite (shr_fexp_exact p (53 - digits p) (e + K + digits p - 53)) by lia.
  cbn [exact_record shr_m].
  replace (e + K + digits p - 53 + (53 - digits p) + digits p - 53)
    with (e + K + digits p - 53) by lia.
  replace (e + K + digits p - 53 <=? Float.emax - Float.prec) with true; [reflexivity|].
  symmetry. apply Z.leb_le. unfold Float.emax, Float.prec. lia.
Qed.

(** The same from any mantissa [p * 2^K]: a short one is shifted left
    first. *)
Lemma round_exact (s : bool) (p : positive) (K e : Z) :
  digits p <= 53 -> 0 <= K -> -1000 <= e + K <= 900 ->
  binary_round Float.prec Float.emax s (shift p K) e
  = S754_finite s (shift p (53 - digits p)) (e + K + digits p - 53).
Proof.
  intros Hd HK Hx. pose proof (digits_pos p) as Hd1.
  unfold binary_round. fold (digits (shift p K)). rewrite digits_shift by lia.
  replace (fexp Float.prec Float.emax (digits p + K + e))
    with (e + K + digits p - 53)
    by (unfold fexp, emin, Float.prec, Float.emax; lia).
  unfold shl_align.
  destruct (e + K + digits p - 53 - e) as [|n|n] eqn:Hn.
  - apply round_aux_exact; lia.
  - apply round_aux_exact; lia.
  - change (Pos.iter xO (shift p K) n) with (shift (shift p K) (Zpos n)).
    rewrite shift_shift by lia.
    rewrite round_aux_exact by lia. f_equal. lia.
Qed.

(** Normalizing the integer [h * 2^K] at the exponent [-1 - K], that is
    the number [h / 2], gives [halves h]. *)
Lemma normalize_halves (h K : Z) :
  Z.abs h < 2 ^ 53 -> 0 <= K ->
  binary_normalize Float.prec Float.emax (h * 2 ^ K) (-1 - K) false = halves h.
Proof.
  intros Hh HK. destruct h as [|p|p]; cbn [halves].
  - reflexivity.
  - rewrite <- shift_value by lia. cbn [binary_normalize].
    rewrite (round_exact false p K (-1 - K)) by (try apply digits_le; lia).
    f_equal. lia.
  - replace (Zneg p * 2 ^ K) with (- (Zpos p * 2 ^ K)) by lia.
    rewrite <- shift_value by lia.
    change (- Zpos (shift p K)) with (Zneg (shift p K)). cbn [binary_normalize].
    rewrite (round_exact true p K (-1 - K)) by (try apply digits_le; lia).
    f_equal. lia.
Qed.

Lemma div_eucl_double (q : Z) : Z.div_eucl (2 * q) 2 = (q, 0).
Proof.
  pose proof (Z.div_eucl_eq (2 * q) 2 ltac:(lia)) as Heq.
  pose proof (Z.mod_pos_bound (2 * q) 2 ltac:(lia)) as Hmod.
  unfold Z.modulo in Hmod.
  destruct (Z.div_eucl (2 * q) 2) as [q' r]. f_equal; lia.
Qed.

(** The division core on [p / 2]: the quotient is exact. *)
Lemma div_core_by_two (p : positive) :
  digits p <= 53 ->
  SFdiv_core_binary Float.prec Float.emax (Zpos p) 0 2 0
  = (Zpos (shift p (54 - digits p)), digits p - 55, loc_Exact).
Proof.
  intros Hd. pose proof (digits_pos p) as Hd1.
  unfold SFdiv_core_binary.
  change (Zdigits2 2) with 2. change (Zdigits2 (Zpos p)) with (digits p).
  replace (Z.min (fexp Float.prec Float.emax (digits p + 0 - (2 + 0))) (0 - 0))
    with (digits p - 55)
    by (unfold fexp, emin, Float.prec, Float.emax; lia).
  replace (0 - 0 - (digits p - 55)) with (55 - digits p) by lia.
  destruct (55 - digits p) as [|n|n] eqn:Hn; [lia| |lia].
  rewrite Z.shiftl_mul_pow2 by lia.
  replace (Zpos p * 2 ^ Zpos n) with (2 * Zpos (shift p (54 - digits p))).
  - rewrite div_eucl_double. reflexivity.
  - rewrite shift_value by lia.
    replace (Zpos n) with (Z.succ (54 - digits p)) by lia.
    rewrite Z.pow_succ_r by lia. lia.
Qed.

(** [h / 2] on integers is exact for [|h| < 2^53]. *)
Lemma truediv_two_exact (h : Z) :
  Z.abs h < 2 ^ 53 -> Float.int_truediv h 2 = OK (halves h).
Proof.
  intros Hh. unfold Float.int_truediv. cbn [Z.eqb].
  destruct h as [|p|p]; cbn [Z.eqb Z.ltb Z.compare xorb halves]; [reflexivity| |].
  all: pose proof (digits_le p 53 ltac:(lia)) as Hd.
  all: change (Z.abs 2) with 2.
  1: change (Z.abs (Zpos p)) with (Zpos p).
  2: change (Z.abs (Zneg p)) with (Zpos p).
  all: rewrite (div_core_by_two p Hd), round_aux_exact by lia.
  all: cbn [Float.finite_or_overflow]; do 2 f_equal; lia.
Qed.

Lemma shift_double (p : positive) (k : Z) :
  0 <= k -> shift (xO p) k = shift p (Z.succ k).
Proof.
  intros Hk. apply Pos2Z.inj. rewrite !shift_value by lia.
  rewrite Pos2Z.inj_xO, Z.pow_succ_r by lia. lia.
Qed.

(** The conversion of an integer [z] with [|2 z| < 2^53] is exact. *)
Lemma of_int_exact (z : Z) :
  Z.abs (2 * z) < 2 ^ 53 -> Float.of_int z = OK (halves (2 * z)).
Proof.
  intros Hz. unfold Float.of_int.
  destruct z as [|p|p]; [reflexivity| |].
  1: change (2 * Zpos p) with (Zpos (xO p)) in *.
  2: change (2 * Zneg p) with (Zneg (xO p)) in *.
  all: cbn [halves binary_normalize].
  all: pose proof (digits_le (xO p) 53 ltac:(lia)) as Hd; rewrite digits_xO in *.
  all: change p with (shift p 0) at 1; rewrite round_exact by lia.
  all: cbn [Float.finite_or_overflow].
  all: rewrite (shift_double p (53 - (digits p + 1))) by lia.
  all: replace (Z.succ (53 - (digits p + 1))) with (53 - digits p) by lia.
  all: do 2 f_equal; lia.
Qed.

(** Aligning a mantissa to a smaller exponent keeps its value. *)
Lemma shl_align_value (m : positive) (e e' : Z) :
  e' <= e -> Zpos (fst (shl_align m e e')) = Zpos m * 2 ^ (e - e').
Proof.
  intros Hle. unfold shl_align.
  destruct (e' - e) as [|n|n] eqn:Hn; cbn [fst].
  - replace (e - e') with 0 by lia. lia.
  - lia.
  - rewrite iter_xO_value. f_equal. f_equal. lia.
Qed.

Lemma halves_signed (s : bool) (p : positive) :
  halves (signed s p)
  = S754_finite s (shift p (53 - digits p)) (digits p - 54).
Proof. destruct s; reflexivity. Qed.

Lemma aligned_value (s : bool) (p : positive) (ez : Z) :
  digits p <= 53 -> ez <= digits p - 54 ->
  cond_Zopp s (Zpos (fst (shl_align (shift p (53 - digits p)) (digits p - 54) ez)))
  = signed s p * 2 ^ (-1 - ez).
Proof.
  intros Hd Hez.
  rewrite shl_align_value by lia. rewrite shift_value by lia.
  rewrite <- Z.mul_assoc, <- Z.pow_add_r by lia.
  replace (53 - digits p + (digits p - 54 - ez)) with (-1 - ez) by lia.
  destruct s; cbn [cond_Zopp signed]; lia.
Qed.

Lemma add_finite_halves (sa sb : bool) (pa pb : positive) :
  Zpos pa < 2 ^ 53 -> Zpos pb < 2 ^ 53 ->
  Z.abs (signed sa pa + signed sb pb) < 2 ^ 53 ->
  SFadd Float.prec Float.emax (halves (signed sa pa)) (halves (signed sb pb))
  = halves (signed sa pa + signed sb pb).
Proof.
  intros Ha Hb Hab.
  pose proof (digits_le pa 53 Ha) as Hda. pose proof (digits_le pb 53 Hb) as Hdb.
  rewrite !halves_signed. cbn [SFadd].
  set (ez := Z.min (digits pa - 54) (digits pb - 54)).
  rewrite !aligned_value by (subst ez; lia).
  rewrite <- Z.mul_add_distr_r.
  replace ez with (-1 - (-1 - ez)) at 2 by lia.
  apply normalize_halves; [exact Hab | subst ez; lia].
Qed.

(** Adding two half-integers is exact while the sum stays below [2^53]
    halves. *)
Lemma add_halves (a b : Z) :
  Z.abs a < 2 ^ 53 -> Z.abs b < 2 ^ 53 -> Z.abs (a + b) < 2 ^ 53 ->
  SFadd Float.prec Float.emax (halves a) (halves b) = halves (a + b).
Proof.
  intros Ha Hb Hab.
  destruct a as [|pa|pa], b as [|pb|pb]; try reflexivity.
  - apply (add_finite_halves false false); assumption.
  - apply (add_finite_halves false true); assumption.
  - apply (add_finite_halves true false); assumption.
  - apply (add_finite_halves true true); assumption.
Qed.

(** [halves h] stands for the rational [h / 2]. *)
Lemma halves_value (h : Z) :
  Z.abs h < 2 ^ 53 ->
  exists q, Float.float_value (halves h) = Some q /\ (q == h # 2)%Q.
Proof.
  intros Hh. destruct h as [|p|p]; cbn [halves Float.float_value].
  { exists 0%Q. split; reflexivity. }
  all: pose proof (digits_le p 53 ltac:(lia)) as Hd.
  all: destruct (digits p - 54) as [|k|k] eqn:Hk; [lia|lia|].
  all: eexists; split; [reflexivity|].
  all: unfold Qeq; cbn [Qnum Qden]; rewrite Pos2Z.inj_pow.
  2: change (Zneg (shift p (53 - digits p))) with (- Zpos (shift p (53 - digits p))).
  all: rewrite shift_value by lia.
  all: replace (Zpos k) with (Z.succ (53 - digits p)) by lia.
  all: rewrite Z.pow_succ_r by lia; lia.
Qed.

Lemma twice_mean_abs (term : DiceTerm) :
  valid_term term -> Z.abs (twice_mean term) = count term * (size term + 1).
Proof.
  intros (Hc & Hs & [Hsg | Hsg]); unfold twice_mean; rewrite Hsg; nia.
Qed.

Lemma dice_magnitude_nonneg (terms : list DiceTerm) :
  Forall valid_term terms -> 0 <= dice_magnitude terms.
Proof.
  induction 1 as [|term terms (Hc & Hs & _) _ IH]; cbn; [lia|].
  fold (dice_magnitude terms). nia.
Qed.

(** The loop of [expected_value] from a float accumulator [h / 2]: it
    ends with the float of [h / 2] plus the means of the terms. *)
Lemma expected_terms_float (terms : list DiceTerm) :
  Forall valid_term terms ->
  forall h,
    Z.abs h + dice_magnitude terms < 2 ^ 53 ->
    expected_terms terms (Float.Float (halves h))
    = OK (Float.Float (halves (h + twice_dice_mean terms))).
Proof.
  induction 1 as [|term terms Hterm Hterms IH]; intros h Hbound.
  - cbn. rewrite Z.add_0_r. reflexivity.
  - cbn [expected_terms twice_dice_mean dice_magnitude fold_right] in *.
    fold (twice_dice_mean terms). fold (dice_magnitude terms) in Hbound.
    fold (twice_mean term).
    pose proof (twice_mean_abs term Hterm) as Habs.
    pose proof (dice_magnitude_nonneg terms Hterms) as Hrest.
    rewrite truediv_two_exact by lia. cbn [bind Float.add_float].
    rewrite add_halves by lia.
    rewrite IH by lia. do 3 f_equal. lia.
Qed.

(** The loop from the integer it starts with: without a dice term the
    integer is returned as it is; the first term turns it into a float. *)
Lemma expected_terms_int (terms : list DiceTerm) (m : Z) :
  Forall valid_term terms ->
  2 * Z.abs m + dice_magnitude terms < 2 ^ 53 ->
  expected_terms terms (Float.Int m)
  = OK (match terms with
        | [] => Float.Int m
        | _ => Float.Float (halves (2 * m + twice_dice_mean terms))
        end).
Proof.
  intros Hvalid Hbound. destruct Hvalid as [|term terms Hterm Hterms].
  - reflexivity.
  - cbn [expected_terms twice_dice_mean dice_magnitude fold_right] in *.
    fold (twice_dice_mean terms). fold (dice_magnitude terms) in Hbound.
    fold (twice_mean term).
    pose proof (twice_mean_abs term Hterm) as Habs.
    pose proof (dice_magnitude_nonneg terms Hterms) as Hrest.
    rewrite truediv_two_exact by lia. cbn [bind Float.add_float].
    rewrite of_int_exact by lia. cbn [bind].
    rewrite add_halves by lia.
    rewrite expected_terms_float by (try assumption; lia).
    do 3 f_equal. lia.
Qed.

(** The sum of the means of the terms is half of [twice_dice_mean]. *)
Lemma mean_of_halves (terms : list DiceTerm) :
  (fold_right (fun term acc => inject_Z (twice_mean term) / 2 + acc) 0 terms
   == twice_dice_mean terms # 2)%Q.
Proof.
  induction terms as [|term terms IH]; cbn [fold_right twice_dice_mean].
  - reflexivity.
  - rewrite IH. fold (twice_dice_mean terms).
    unfold Qeq, Qdiv, Qmult, Qplus, Qinv, inject_Z. cbn [Qnum Qden Z.mul Pos.mul].
    lia.
Qed.

(** C7, as the code has it: while the numbers stay in the range where
    binary64 is exact on halves ([magnitude < 2^53]), [expected_value]
    returns a number whose value is the sum over the dice terms of
    [sign * count * (size + 1) / 2] plus the sum of the modifier values.
    It takes no random source. *)
Theorem expected_value_exact (expr : string) (parsed : DiceExpression) :
  parse_expression expr = OK parsed ->
  magnitude parsed < 2 ^ 53 ->
  exists v q,
    expected_value expr = OK v
    /\ Float.value v = Some q
    /\ (q == mean parsed)%Q.
Proof.
  intros Hparse Hbound. unfold magnitude in Hbound.
  pose proof (parse_expression_valid _ _ Hparse) as Hvalid.
  fold (dice_magnitude (DiceExpression.dice parsed)) in Hbound.
  pose proof (dice_magnitude_nonneg _ Hvalid) as Hrest.
  unfold expected_value. rewrite Hparse. cbn [bind].
  rewrite (expected_terms_int _ _ Hvalid Hbound).
  unfold mean, DiceExpression.modifier_total in *.
  fold (Dice.sum (map value (DiceExpression.modifiers parsed))) in *.
  rewrite sum_total_of in *.
  set (m := total_of (map value (DiceExpression.modifiers parsed))) in *.
  destruct (DiceExpression.dice parsed) as [|term terms] eqn:Hdice.
  - exists (Float.Int m), (inject_Z m). split; [reflexivity|]. split; [reflexivity|].
    cbn [fold_right]. unfold Qeq, Qplus, inject_Z. cbn [Qnum Qden]. lia.
  - set (d := twice_dice_mean (term :: terms)) in *.
    assert (Hd : Z.abs d <= dice_magnitude (term :: terms)).
    { subst d. clear -Hvalid. induction Hvalid as [|t ts Ht _ IH]; cbn; [lia|].
      fold (twice_dice_mean ts). fold (dice_magnitude ts).
      pose proof (twice_mean_abs t Ht). lia. }
    destruct (halves_value (2 * m + d)) as (q & Hq & Heq); [lia|].
    exists (Float.Float (halves (2 * m + d))), q.
    split; [reflexivity|]. split; [exact Hq|].
    rewrite Heq, mean_of_halves. fold d.
    unfold Qeq, Qplus, inject_Z. cbn [Qnum Qden]. lia.
Qed.

Lemma expected_value_exact_witness :
  (exists v q,
      expected_value "1d6" = OK v /\ Float.value v = Some q /\ (q == 7 # 2)%Q)
  /\ (exists v q,
         expected_value "2d4+2" = OK v /\ Float.value v = Some q /\ (q == 7)%Q).
Proof.
  split.
  - destruct (expected_value_exact "1d6" parsed_1d6 eq_refl) as (v & q & Hv & Hq & Heq).
    { vm_compute. reflexivity. }
    exists v, q. split; [exact Hv|]. split; [exact Hq|].
    rewrite Heq. vm_compute. reflexivity.
  - destruct (expected_value_exact "2d4+2" parsed_2d4_plus_2 eq_refl)
      as (v & q & Hv & Hq & Heq).
    { vm_compute. reflexivity. }
    exists v, q. split; [exact Hv|]. split; [exact Hq|].
    rewrite Heq. vm_compute. reflexivity.
Defined.

Example expected_value_1d6 :
  expected_value "1d6" = OK (Float.Float (S754_finite false 7881299347898368 (-51))).
Proof. vm_compute. reflexivity. Qed.

Example expected_value_2d4_plus_2 :
  expected_value "2d4+2" = OK (Float.Float (S754_finite false 7881299347898368 (-50))).
Proof. vm_compute. reflexivity. Qed.

Example expected_value_modifier_only : expected_value "+5" = OK (Float.Int 5).
Proof. vm_compute. reflexivity. Qed.

Example truediv_rounds : Float.int_truediv 1 3 = OK (S754_finite false 6004799503160661 (-54)).
Proof. vm_compute. reflexivity. Qed.

Example truediv_overflows : Float.int_truediv (10 ^ 400) 2 = Raise OverflowError.
Proof. vm_compute. reflexivity. Qed.

Example of_int_rounds :
  Float.of_int 9007199254740993 = OK (S754_finite false 4503599627370496 1).
Proof. vm_compute. reflexivity. Qed.

(** C7, the claim as stated fails on large numbers: with the modifier
    [2^53] each of the two additions of [1.0] is rounded away, and the
    result is [2^53] where the sum of the means is [2^53 + 2]. *)
Lemma expected_value_rounds :
  parse_expression "1d1+1d1+9007199254740992" = OK parsed_two_d1_plus_2p53
  /\ expected_value "1d1+1d1+9007199254740992"
     = OK (Float.Float (S754_finite false 4503599627370496 1))
  /\ Float.value (Float.Float (S754_finite false 4503599627370496 1))
     = Some (inject_Z 9007199254740992)
  /\ (mean parsed_two_d1_plus_2p53 == inject_Z 9007199254740994)%Q
  /\ ~ (inject_Z 9007199254740992 == mean parsed_two_d1_plus_2p53)%Q.
Proof.
  split; [vm_compute; reflexivity|]. split; [vm_compute; reflexivity|].
  split; [vm_compute; reflexivity|]. split; [vm_compute; reflexivity|].
  vm_compute. discriminate.
Qed.

(** ** The d20 helpers and the resolver *)

Example valid_state_any_case :
  valid_state "normal" /\ valid_state "AdVantage" /\ valid_state "DISADVANTAGE"
  /\ ~ valid_state "sideways" /\ ~ valid_state "" /\ ~ valid_state " normal".
Proof.
  repeat split;
    first [ left; reflexivity
          | right; left; reflexivity
          | right; right; reflexivity
          | intros [E | [E | E]]; discriminate E ].
Qed.

Section ResolverFacts.
Context {G : Type} `{RandomSource G}.

Lemma roll_d20_range (g : G) : 1 <= fst (roll_d20 g) <= 20.
Proof. unfold roll_d20. apply randint_range. lia. Qed.

(** The two draws of the advantage and disadvantage helpers. *)
Lemma roll_with_advantage_draws (g : G) :
  let first := fst (randint 1 20 g) in
  let g1 := snd (randint 1 20 g) in
  let second := fst (randint 1 20 g1) in
  roll_with_advantage g
  = ((Z.max first second, (first, second)), snd (randint 1 20 g1)).
Proof.
  cbv zeta. unfold roll_with_advantage.
  destruct (randint 1 20 g) as [a ga]; cbn [fst snd].
  destruct (randint 1 20 ga) as [b gb]; reflexivity.
Qed.

Lemma roll_with_disadvantage_draws (g : G) :
  let first := fst (randint 1 20 g) in
  let g1 := snd (randint 1 20 g) in
  let second := fst (randint 1 20 g1) in
  roll_with_disadvantage g
  = ((Z.min first second, (first, second)), snd (randint 1 20 g1)).
Proof.
  cbv zeta. unfold roll_with_disadvantage.
  destruct (randint 1 20 g) as [a ga]; cbn [fst snd].
  destruct (randint 1 20 ga) as [b gb]; reflexivity.
Qed.

(** C4: [roll_with_advantage] draws a first and then a second d20 from the
    source, keeps the larger and returns both in draw order;
    [roll_with_disadvantage] makes the same two draws, keeps the smaller
    and returns the same pair.  Both leave the source in the state after
    the second draw. *)
Theorem advantage_disadvantage_two_draws (g : G) :
  let first := fst (randint 1 20 g) in
  let g1 := snd (randint 1 20 g) in
  let second := fst (randint 1 20 g1) in
  let g2 := snd (randint 1 20 g1) in
  roll_with_advantage g = ((Z.max first second, (first, second)), g2)
  /\ roll_with_disadvantage g = ((Z.min first second, (first, second)), g2)
  /\ snd (fst (roll_with_advantage g)) = snd (fst (roll_with_disadvantage g))
  /\ snd (roll_with_advantage g) = snd (roll_with_disadvantage g)
  /\ 1 <= first <= 20 /\ 1 <= second <= 20.
Proof.
  intros first g1 second g2.
  pose proof (roll_with_advantage_draws g) as Hadv.
  pose proof (roll_with_disadvantage_draws g) as Hdis.
  cbv zeta in Hadv, Hdis. fold first g1 in Hadv, Hdis. fold second g2 in Hadv, Hdis.
  rewrite Hadv, Hdis. cbn [fst snd].
  repeat split; try reflexivity; apply randint_range; lia.
Qed.

Lemma roll_state_normal (state : string) (g : G) :
  Str.lower state = "normal" ->
  _roll_d20 state g
  = (OK (fst (roll_d20 g), [fst (roll_d20 g)]), snd (roll_d20 g)).
Proof.
  intros Hs. unfold _roll_d20. rewrite Hs. cbn [String.eqb Ascii.eqb Bool.eqb].
  destruct (roll_d20 g); reflexivity.
Qed.

Lemma roll_state_advantage (state : string) (g : G) :
  Str.lower state = "advantage" ->
  _roll_d20 state g
  = (let '((value, (first, second)), g') := roll_with_advantage g in
     (OK (value, [first; second]), g')).
Proof. intros Hs. unfold _roll_d20. rewrite Hs. reflexivity. Qed.

Lemma roll_state_disadvantage (state : string) (g : G) :
  Str.lower state = "disadvantage" ->
  _roll_d20 state g
  = (let '((value, (first, second)), g') := roll_with_disadvantage g in
     (OK (value, [first; second]), g')).
Proof. intros Hs. unfold _roll_d20. rewrite Hs. reflexivity. Qed.

Lemma roll_state_invalid (state : string) (g : G) :
  ~ valid_state state ->
  _roll_d20 state g = (Raise (ValueError BadAdvantageState), g).
Proof.
  intros Hbad. unfold _roll_d20.
  destruct (String.eqb_spec (Str.lower state) "normal") as [E|_].
  { exfalso. apply Hbad. left. exact E. }
  destruct (String.eqb_spec (Str.lower state) "advantage") as [E|_].
  { exfalso. apply Hbad. right. left. exact E. }
  destruct (String.eqb_spec (Str.lower state) "disadvantage") as [E|_].
  { exfalso. apply Hbad. right. right. exact E. }
  reflexivity.
Qed.

Lemma roll_state_valid (state : string) (g : G) :
  valid_state state ->
  exists natural detail g', _roll_d20 state g = (OK (natural, detail), g').
Proof.
  intros [E | [E | E]].
  - rewrite (roll_state_normal _ _ E). eauto.
  - rewrite (roll_state_advantage _ _ E).
    destruct (roll_with_advantage g) as [[v [a b]] g']. eauto.
  - rewrite (roll_state_disadvantage _ _ E).
    destruct (roll_with_disadvantage g) as [[v [a b]] g']. eauto.
Qed.

End ResolverFacts.

Section ResolverClaims.
Context {G : Type} `{RandomSource G}.

(** C3: for a valid advantage state [resolve_check] returns a
    [CheckResult] whose [natural] is the value kept by the roller that the
    state selects, whose [total] is [natural + modifier], whose [success]
    holds exactly when [total >= dc], and whose [roll_details] is the one
    value [natural] for "normal" and the two raw draws, in draw order, for
    "advantage" and "disadvantage". *)
Theorem resolve_check_outcome (modifier dc : Z) (advantage : string) (g : G) :
  valid_state advantage ->
  exists r g',
    resolve_check modifier dc advantage g = (OK r, g')
    /\ Rules.total r = natural r + modifier
    /\ (success r = true <-> Rules.total r >= dc)
    /\ Rules.modifier r = modifier
    /\ Rules.dc r = dc
    /\ (Str.lower advantage = "normal" ->
        roll_d20 g = (natural r, g') /\ roll_details r = [natural r])
    /\ (Str.lower advantage = "advantage" ->
        exists first second,
          roll_with_advantage g = ((natural r, (first, second)), g')
          /\ natural r = Z.max first second
          /\ roll_details r = [first; second])
    /\ (Str.lower advantage = "disadvantage" ->
        exists first second,
          roll_with_disadvantage g = ((natural r, (first, second)), g')
          /\ natural r = Z.min first second
          /\ roll_details r = [first; second]).
Proof.
  intros Hvalid.
  assert (Hsucc : forall t : Z, (t >=? dc) = true <-> t >= dc).
  { intros t. rewrite Z.geb_le. lia. }
  pose proof (roll_with_advantage_draws g) as Hadv.
  pose proof (roll_with_disadvantage_draws g) as Hdis. cbv zeta in Hadv, Hdis.
  unfold resolve_check.
  destruct Hvalid as [E | [E | E]].
  - rewrite (roll_state_normal _ _ E).
    destruct (roll_d20 g) as [v g'] eqn:Hroll. cbn [fst snd].
    eexists _, g'. split; [reflexivity|]. cbn.
    split; [reflexivity|]. split; [apply Hsucc|].
    split; [reflexivity|]. split; [reflexivity|].
    split; [intros _; split; reflexivity|].
    split; intros E'; rewrite E in E'; discriminate E'.
  - rewrite (roll_state_advantage _ _ E), Hadv.
    eexists _, _. split; [reflexivity|]. cbn.
    split; [reflexivity|]. split; [apply Hsucc|].
    split; [reflexivity|]. split; [reflexivity|].
    split; [intros E'; rewrite E in E'; discriminate E'|].
    split; [|intros E'; rewrite E in E'; discriminate E'].
    intros _. eexists _, _. split; [reflexivity|]. split; reflexivity.
  - rewrite (roll_state_disadvantage _ _ E), Hdis.
    eexists _, _. split; [reflexivity|]. cbn.
    split; [reflexivity|]. split; [apply Hsucc|].
    split; [reflexivity|]. split; [reflexivity|].
    split; [intros E'; rewrite E in E'; discriminate E'|].
    split; [intros E'; rewrite E in E'; discriminate E'|].
    intros _. eexists _, _. split; [reflexivity|]. split; reflexivity.
Qed.

Lemma resolve_check_valid (modifier dc : Z) (advantage : string) (g : G) :
  valid_state advantage ->
  exists r g',
    resolve_check modifier dc advantage g = (OK r, g')
    /\ Rules.total r = natural r + modifier /\ Rules.dc r = dc.
Proof.
  intros Hvalid. unfold resolve_check.
  destruct (roll_state_valid advantage g Hvalid) as (n & d & g' & ->).
  eexists _, g'. split; [reflexivity|]. split; reflexivity.
Qed.

Lemma resolve_check_invalid (modifier dc : Z) (advantage : string) (g : G) :
  ~ valid_state advantage ->
  resolve_check modifier dc advantage g = (Raise (ValueError BadAdvantageState), g).
Proof.
  intros Hbad. unfold resolve_check. rewrite (roll_state_invalid _ _ Hbad). reflexivity.
Qed.

(** C2: for valid advantage states [resolve_contest] resolves A's check
    on the given source and B's check on the state A's check leaves
    behind, both against [dc = 0]; it returns the two checks and their
    totals, and the winner is "a" exactly when [total_a > total_b], "b"
    exactly when [total_b > total_a], and nobody exactly when the totals
    are equal. *)
Theorem resolve_contest_outcome (modifier_a modifier_b : Z)
    (advantage_a advantage_b : string) (g : G) :
  valid_state advantage_a ->
  valid_state advantage_b ->
  exists ca g1 cb g2 r,
    resolve_check modifier_a 0 advantage_a g = (OK ca, g1)
    /\ resolve_check modifier_b 0 advantage_b g1 = (OK cb, g2)
    /\ resolve_contest modifier_a modifier_b advantage_a advantage_b g = (OK r, g2)
    /\ check_a r = ca /\ check_b r = cb
    /\ Rules.dc ca = 0 /\ Rules.dc cb = 0
    /\ total_a r = Rules.total ca /\ total_b r = Rules.total cb
    /\ (winner r = Some "a" <-> total_a r > total_b r)
    /\ (winner r = Some "b" <-> total_b r > total_a r)
    /\ (winner r = None <-> total_a r = total_b r).
Proof.
  intros Ha Hb.
  destruct (resolve_check_valid modifier_a 0 advantage_a g Ha) as (ca & g1 & Hca & _ & Hdca).
  destruct (resolve_check_valid modifier_b 0 advantage_b g1 Hb) as (cb & g2 & Hcb & _ & Hdcb).
  exists ca, g1, cb, g2. eexists.
  split; [exact Hca|]. split; [exact Hcb|].
  unfold resolve_contest. rewrite Hca, Hcb.
  split; [reflexivity|]. cbn [check_a check_b total_a total_b winner].
  repeat split; try assumption.
  - destruct (Z.gtb_spec (Rules.total ca) (Rules.total cb)); [lia|].
    destruct (Z.gtb_spec (Rules.total cb) (Rules.total ca)); discriminate.
  - intros Hgt. destruct (Z.gtb_spec (Rules.total ca) (Rules.total cb)); [reflexivity|lia].
  - destruct (Z.gtb_spec (Rules.total ca) (Rules.total cb)); [discriminate|].
    destruct (Z.gtb_spec (Rules.total cb) (Rules.total ca)); [lia|discriminate].
  - intros Hgt. destruct (Z.gtb_spec (Rules.total ca) (Rules.total cb)); [lia|].
    destruct (Z.gtb_spec (Rules.total cb) (Rules.total ca)); [reflexivity|lia].
  - destruct (Z.gtb_spec (Rules.total ca) (Rules.total cb)); [discriminate|].
    destruct (Z.gtb_spec (Rules.total cb) (Rules.total ca)); [discriminate|lia].
  - intros Heq. destruct (Z.gtb_spec (Rules.total ca) (Rules.total cb)); [lia|].
    destruct (Z.gtb_spec (Rules.total cb) (Rules.total ca)); [lia|reflexivity].
Qed.

(** C9, as the code has it: [resolve_check] accepts exactly the strings
    whose lower-cased form is "normal", "advantage" or "disadvantage" and
    raises [ValueError] for every other string with the source untouched.
    [resolve_contest] raises the same error when either state is
    invalid: with the source untouched when [advantage_a] is invalid, and
    with the source in the state A's check left when only [advantage_b]
    is invalid. *)
Theorem advantage_state_validation (modifier dc modifier_a modifier_b : Z)
    (state advantage_a advantage_b : string) (g : G) :
  (valid_state state ->
   exists r g', resolve_check modifier dc state g = (OK r, g'))
  /\ (~ valid_state state ->
      resolve_check modifier dc state g = (Raise (ValueError BadAdvantageState), g))
  /\ (valid_state advantage_a -> valid_state advantage_b ->
      exists r g',
        resolve_contest modifier_a modifier_b advantage_a advantage_b g = (OK r, g'))
  /\ (~ valid_state advantage_a ->
      resolve_contest modifier_a modifier_b advantage_a advantage_b g
      = (Raise (ValueError BadAdvantageState), g))
  /\ (valid_state advantage_a -> ~ valid_state advantage_b ->
      resolve_contest modifier_a modifier_b advantage_a advantage_b g
      = (Raise (ValueError BadAdvantageState),
         snd (resolve_check modifier_a 0 advantage_a g))).
Proof.
  split; [|split; [|split; [|split]]].
  - intros Hv. destruct (resolve_check_valid modifier dc state g Hv) as (r & g' & Hr & _).
    eauto.
  - apply resolve_check_invalid.
  - intros Ha Hb.
    destruct (resolve_check_valid modifier_a 0 advantage_a g Ha) as (ca & g1 & Hca & _).
    destruct (resolve_check_valid modifier_b 0 advantage_b g1 Hb) as (cb & g2 & Hcb & _).
    unfold resolve_contest. rewrite Hca, Hcb. eauto.
  - intros Ha. unfold resolve_contest. rewrite (resolve_check_invalid _ _ _ _ Ha).
    reflexivity.
  - intros Ha Hb.
    destruct (resolve_check_valid modifier_a 0 advantage_a g Ha) as (ca & g1 & Hca & _).
    unfold resolve_contest. rewrite Hca. cbn [snd].
    rewrite (resolve_check_invalid _ _ _ _ Hb). reflexivity.
Qed.

End ResolverClaims.

Lemma resolve_check_outcome_witness :
  exists r g',
    resolve_check 5 10 "Advantage" (42 : Z) = (OK r, g')
    /\ (success r = true <-> Rules.total r >= 10)
    /\ roll_details r = [8; 5] /\ natural r = 8.
Proof.
  destruct (resolve_check_outcome 5 10 "Advantage" (42 : Z))
    as (r & g' & Hr & _ & Hs & _ & _ & _ & Hadv & _).
  { right. left. reflexivity. }
  exists r, g'. split; [exact Hr|]. split; [exact Hs|].
  destruct (Hadv eq_refl) as (first & second & Hroll & Hnat & Hdet).
  assert (Hrun : roll_with_advantage (42 : Z) = ((8, (8, 5)), 1116302264))
    by (vm_compute; reflexivity).
  rewrite Hrun in Hroll. injection Hroll as Hn Hf Hsec Hg.
  rewrite Hdet, <- Hn, <- Hf, <- Hsec. split; reflexivity.
Defined.

Lemma resolve_contest_outcome_witness :
  exists r g2,
    resolve_contest 4 1 "normal" "DISADVANTAGE" (7 : Z) = (OK r, g2)
    /\ (winner r = Some "a" <-> total_a r > total_b r)
    /\ (winner r = Some "b" <-> total_b r > total_a r)
    /\ (winner r = None <-> total_a r = total_b r).
Proof.
  destruct (resolve_contest_outcome 4 1 "normal" "DISADVANTAGE" (7 : Z))
    as (ca & g1 & cb & g2 & r & _ & _ & Hr & _ & _ & _ & _ & _ & _ & Ha & Hb & Ht).
  { left. reflexivity. }
  { right. right. reflexivity. }
  exists r, g2. repeat split; first [exact Hr | apply Ha | apply Hb | apply Ht].
Defined.

(** C9, the claim as stated fails for [resolve_contest]: with a valid
    first state and an unknown second state the call raises only after
    A's d20 has been drawn, so the source has moved on. *)
Lemma contest_draws_before_failing :
  resolve_contest 4 1 "normal" "sideways" (7 : Z)
  = (Raise (ValueError BadAdvantageState), lcg_step 7)
  /\ lcg_step 7 <> 7.
Proof. split; [vm_compute; reflexivity | vm_compute; discriminate]. Qed.

(** ** Character maths *)

Lemma validate_score_ok (score : Z) :
  1 <= score <= 30 -> validate_score score = OK score.
Proof.
  intros Hr. unfold validate_score.
  replace (1 <=? score) with true by (symmetry; apply Z.leb_le; lia).
  replace (score <=? 30) with true by (symmetry; apply Z.leb_le; lia).
  reflexivity.
Qed.

Lemma validate_score_inv (score : Z) (r : Z) :
  validate_score score = OK r -> 1 <= score <= 30.
Proof.
  unfold validate_score.
  destruct (Z.leb_spec 1 score), (Z.leb_spec score 30); cbn; intros Hv;
    try discriminate Hv; lia.
Qed.

(** What [AbilityScores.__post_init__] establishes: every field that
    [getattr] reaches holds a score of the range 1..30. *)
Lemma post_init_scores (a : AbilityScores) (ability : string) (score : Z) :
  AbilityScores_post_init a = OK a ->
  getattr a ability = OK score ->
  1 <= score <= 30.
Proof.
  unfold AbilityScores_post_init, ABILITY_NAMES, validate_fields, getattr.
  cbn [String.eqb Ascii.eqb Bool.eqb bind].
  destruct (validate_score (strength a)) as [s1|] eqn:H1; [|discriminate].
  destruct (validate_score (dexterity a)) as [s2|] eqn:H2; [|discriminate].
  destruct (validate_score (constitution a)) as [s3|] eqn:H3; [|discriminate].
  destruct (validate_score (intelligence a)) as [s4|] eqn:H4; [|discriminate].
  destruct (validate_score (wisdom a)) as [s5|] eqn:H5; [|discriminate].
  destruct (validate_score (charisma a)) as [s6|] eqn:H6; [|discriminate].
  cbn [bind]. intros _.
  apply validate_score_inv in H1, H2, H3, H4, H5, H6.
  repeat match goal with
         | |- context [String.eqb ?x ?y] => destruct (String.eqb x y)
         end;
    intros Hget; inversion Hget; subst; assumption.
Qed.

(** Every skill of [SKILL_ABILITIES] is governed by one of the six
    abilities, written in lower case. *)
Lemma skill_ability_known (key ability : string) :
  SKILL_ABILITIES !! key = Some ability ->
  ability ∈ ABILITY_NAMES /\ Str.lower ability = ability.
Proof.
  intros Hlook. unfold SKILL_ABILITIES in Hlook.
  apply elem_of_list_to_map_2 in Hlook.
  repeat match goal with
         | Hin : _ ∈ _ :: _ |- _ => apply elem_of_cons in Hin; destruct Hin as [Hin | Hin]
         | Hin : _ ∈ [] |- _ => apply elem_of_nil in Hin; destruct Hin
         | Heq : (_, _) = (_, _) |- _ => inversion Heq; subst; clear Heq
         end;
    (split; [unfold ABILITY_NAMES; set_solver | reflexivity]).
Qed.

Lemma ability_modifier_value (a : AbilityScores) (ability : string) :
  AbilityScores_post_init a = OK a ->
  ability ∈ ABILITY_NAMES ->
  Str.lower ability = ability ->
  exists score,
    getattr a ability = OK score
    /\ AbilityScores_modifier a ability = OK ((score - 10) / 2).
Proof.
  intros Hinit Hin Hlow.
  assert (Hget : exists score, getattr a ability = OK score).
  { unfold ABILITY_NAMES in Hin.
    repeat match goal with
           | Hin : _ ∈ _ :: _ |- _ => apply elem_of_cons in Hin; destruct Hin as [Hin | Hin]
           | Hin : _ ∈ [] |- _ => apply elem_of_nil in Hin; destruct Hin
           end; subst; eexists; reflexivity. }
  destruct Hget as [score Hget]. exists score. split; [exact Hget|].
  unfold AbilityScores_modifier. rewrite Hlow.
  rewrite (bool_decide_eq_true_2 _ Hin). cbn [negb]. rewrite Hget. cbn [bind].
  unfold Abilities.modifier.
  rewrite (validate_score_ok score (post_init_scores a ability score Hinit Hget)).
  reflexivity.
Qed.

Lemma proficiency_bonus_value (level : Z) :
  1 <= level <= 20 -> proficiency_bonus level = OK (2 + (level - 1) / 4).
Proof.
  intros Hr. unfold proficiency_bonus.
  destruct (Z.ltb_spec level 1); [lia|].
  destruct (Z.gtb_spec level 20); [lia|]. reflexivity.
Qed.

(** C10: when the lower-cased skill name is in [expertise_skills],
    [skill_modifier] is the modifier of the governing ability plus twice
    the proficiency bonus, whether or not the skill is also in
    [proficient_skills]. *)
Theorem skill_modifier_expertise (self : Character) (skill ability : string) :
  AbilityScores_post_init (abilities self) = OK (abilities self) ->
  1 <= level self <= 20 ->
  SKILL_ABILITIES !! Str.lower skill = Some ability ->
  Str.lower skill ∈ expertise_skills self ->
  exists score bonus,
    getattr (abilities self) ability = OK score
    /\ ability_modifier self ability = OK ((score - 10) / 2)
    /\ Character_proficiency_bonus self = OK bonus
    /\ bonus = 2 + (level self - 1) / 4
    /\ skill_modifier self skill = OK ((score - 10) / 2 + 2 * bonus).
Proof.
  intros Hinit Hlevel Hskill Hexpert.
  destruct (skill_ability_known _ _ Hskill) as [Hin Hlow].
  destruct (ability_modifier_value (abilities self) ability Hinit Hin Hlow)
    as (score & Hget & Hmod).
  exists score, (2 + (level self - 1) / 4).
  split; [exact Hget|]. split; [exact Hmod|].
  split; [apply proficiency_bonus_value; exact Hlevel|]. split; [reflexivity|].
  unfold skill_modifier. rewrite Hskill.
  unfold ability_modifier. rewrite Hmod. cbn [bind].
  rewrite (bool_decide_eq_true_2 _ Hexpert).
  unfold Character_proficiency_bonus.
  rewrite (proficiency_bonus_value _ Hlevel). reflexivity.
Qed.

Lemma skill_modifier_expertise_witness : skill_modifier nyx "stealth" = OK 9.
Proof.
  destruct (skill_modifier_expertise nyx "stealth" "dexterity")
    as (score & bonus & Hget & _ & _ & Hbonus & Hres).
  - reflexivity.
  - cbn. lia.
  - reflexivity.
  - cbn. set_solver.
  - injection Hget as <-. rewrite Hres, Hbonus. reflexivity.
Defined.

(** * Further properties of the code *)

(** ** More on the parser and on [roll] *)

(** X1: a successful parse yields at least one term, and every dice term
    it yields has a count of at least 0, a size of at least 1 and the sign
    1 or -1. *)
Theorem parse_expression_invariant (expr : string) (parsed : DiceExpression) :
  parse_expression expr = OK parsed ->
  Forall valid_term (DiceExpression.dice parsed)
  /\ (DiceExpression.dice parsed <> [] \/ DiceExpression.modifiers parsed <> []).
Proof.
  intros Hparse. split; [apply (parse_expression_valid _ _ Hparse)|].
  unfold parse_expression in Hparse.
  destruct (Str.remove_spaces expr) as [|c r]; [discriminate|].
  destruct (parse_tokens (findall (String c r)) [] []) as [[ds ms]|];
    cbn [bind] in Hparse; [|discriminate].
  destruct ds as [|d ds]; [destruct ms as [|m ms]; [discriminate|]|];
    inversion Hparse; subst; cbn; [right|left]; discriminate.
Qed.

Lemma parse_expression_invariant_witness :
  Forall valid_term (DiceExpression.dice parsed_2d6_minus_1d4_plus_3)
  /\ (DiceExpression.dice parsed_2d6_minus_1d4_plus_3 <> []
      \/ DiceExpression.modifiers parsed_2d6_minus_1d4_plus_3 <> []).
Proof. exact (parse_expression_invariant "2d6-1d4+3" _ eq_refl). Defined.

Lemma total_of_app (l k : list Z) : total_of (l ++ k) = total_of l + total_of k.
Proof.
  unfold total_of. induction l as [|x l IH]; cbn [app map fold_right]; [reflexivity|].
  rewrite IH. lia.
Qed.

Lemma total_of_opp (l : list Z) : total_of (map Z.opp l) = - total_of l.
Proof.
  unfold total_of. induction l as [|x l IH]; cbn [app map fold_right]; [reflexivity|].
  rewrite IH. lia.
Qed.

Lemma shown_total (term : DiceTerm) (raw : list Z) :
  sign term = 1 \/ sign term = -1 ->
  total_of (shown term raw) = sign term * total_of raw.
Proof.
  intros [E|E]; unfold shown; rewrite E.
  - change (1 =? -1) with false. cbv iota. lia.
  - change (-1 =? -1) with true. cbv iota. rewrite total_of_opp. lia.
Qed.

(** The sum of everything [dice_results] shows is the signed total of
    the dice. *)
Lemma shown_dice_total (terms : list DiceTerm) (raws : list (list Z)) :
  Forall valid_term terms ->
  total_of (concat (zip_with shown terms raws)) = dice_total terms raws.
Proof.
  intros Hvalid. revert raws.
  induction Hvalid as [|term terms (_ & _ & Hsg) _ IH]; intros [|raw raws];
    cbn [zip_with concat dice_total]; try reflexivity.
  rewrite total_of_app, (shown_total term raw Hsg), IH. reflexivity.
Qed.

Section RollExtras.
Context {G : Type} `{RandomSource G}.

(** What [roll] returns for a parsed expression, from the loop lemma. *)
Lemma roll_parsed (expr : string) (parsed : DiceExpression) (g : G) :
  parse_expression expr = OK parsed ->
  let terms := DiceExpression.dice parsed in
  let raws := fst (draw_terms terms g) in
  roll expr g
  = (OK {| DiceRollResult.total :=
             total_of (map value (DiceExpression.modifiers parsed)) + dice_total terms raws;
           DiceRollResult.dice_results := zip_with shown terms raws;
           DiceRollResult.modifiers := map value (DiceExpression.modifiers parsed) |},
     snd (draw_terms terms g)).
Proof.
  intros Hparse. cbv zeta.
  pose proof (parse_expression_valid _ _ Hparse) as Hvalid.
  unfold roll. rewrite Hparse, (roll_terms_spec _ Hvalid).
  unfold DiceExpression.modifier_total.
  fold (Dice.sum (map value (DiceExpression.modifiers parsed))).
  rewrite sum_total_of. reflexivity.
Qed.

(** X2: the fields of a roll result agree: [total] is the sum of all the
    dice values [dice_results] shows plus the sum of [modifiers], and
    [dice_results] has one entry per dice term of the expression. *)
Theorem roll_fields_agree (expr : string) (parsed : DiceExpression) (g : G) :
  parse_expression expr = OK parsed ->
  exists res g',
    roll expr g = (OK res, g')
    /\ DiceRollResult.total res
       = Dice.sum (concat (DiceRollResult.dice_results res))
         + Dice.sum (DiceRollResult.modifiers res)
    /\ length (DiceRollResult.dice_results res)
       = length (DiceExpression.dice parsed)
    /\ length (DiceRollResult.modifiers res)
       = length (DiceExpression.modifiers parsed).
Proof.
  intros Hparse.
  pose proof (parse_expression_valid _ _ Hparse) as Hvalid.
  pose proof (roll_parsed expr parsed g Hparse) as Hroll. cbv zeta in Hroll.
  eexists _, _. split; [exact Hroll|].
  cbn [DiceRollResult.total DiceRollResult.dice_results DiceRollResult.modifiers].
  rewrite !sum_total_of, (shown_dice_total _ _ Hvalid).
  split; [lia|]. split; [|apply length_map].
  rewrite length_zip_with.
  pose proof (Forall2_length _ _ _ (draw_terms_shape _ g Hvalid)) as Hlen. lia.
Qed.

End RollExtras.

Lemma roll_fields_agree_witness :
  exists res g',
    roll "2d6-1d4+3" (7 : Z) = (OK res, g')
    /\ DiceRollResult.total res
       = Dice.sum (concat (DiceRollResult.dice_results res))
         + Dice.sum (DiceRollResult.modifiers res)
    /\ length (DiceRollResult.dice_results res) = 2%nat
    /\ length (DiceRollResult.modifiers res) = 1%nat.
Proof. exact (roll_fields_agree "2d6-1d4+3" parsed_2d6_minus_1d4_plus_3 (7 : Z) eq_refl). Defined.

Lemma raw_total_bounds (size : Z) (raw : list Z) :
  Forall (fun v => 1 <= v <= size) raw ->
  Z.of_nat (length raw) <= total_of raw <= Z.of_nat (length raw) * size.
Proof.
  unfold total_of. induction 1 as [|v raw Hv _ IH]; cbn [length fold_right]; [lia|].
  rewrite Nat2Z.inj_succ. nia.
Qed.

Lemma term_total_bounds (term : DiceTerm) (raw : list Z) :
  valid_term term ->
  length raw = Z.to_nat (count term) ->
  Forall (fun v => 1 <= v <= size term) raw ->
  term_low term <= sign term * total_of raw <= term_high term.
Proof.
  intros (Hc & Hs & Hsg) Hlen Hraw.
  pose proof (raw_total_bounds _ _ Hraw) as Hb.
  rewrite Hlen, Z2Nat.id in Hb by exact Hc.
  unfold term_low, term_high.
  destruct Hsg as [E|E]; rewrite E.
  - change (1 =? -1) with false. cbv iota. lia.
  - change (-1 =? -1) with true. cbv iota. lia.
Qed.

Lemma dice_total_bounds (terms : list DiceTerm) (raws : list (list Z)) :
  Forall valid_term terms ->
  Forall2 (fun term raw =>
             length raw = Z.to_nat (count term)
             /\ Forall (fun v => 1 <= v <= size term) raw) terms raws ->
  total_of (map term_low terms) <= dice_total terms raws
  <= total_of (map term_high terms).
Proof.
  intros Hvalid Hshape. unfold total_of.
  induction Hshape as [|term raw terms raws [Hlen Hraw] _ IH];
    cbn [map fold_right dice_total]; [lia|].
  inversion Hvalid as [|? ? Hterm Hterms]; subst.
  pose proof (term_total_bounds term raw Hterm Hlen Hraw).
  specialize (IH Hterms). lia.
Qed.

Lemma shown_faces (term : DiceTerm) (raw : list Z) :
  Forall (fun v => 1 <= v <= size term) raw ->
  Forall (shown_die term) (shown term raw).
Proof.
  intros Hraw. unfold shown, shown_die.
  destruct (sign term =? -1); [|exact Hraw].
  induction Hraw as [|v raw Hv _ IH]; cbn [map]; constructor; [lia|exact IH].
Qed.

Lemma shown_shape (terms : list DiceTerm) (raws : list (list Z)) :
  Forall valid_term terms ->
  Forall2 (fun term raw =>
             length raw = Z.to_nat (count term)
             /\ Forall (fun v => 1 <= v <= size term) raw) terms raws ->
  Forall2 (fun term values =>
             Z.of_nat (length values) = count term
             /\ Forall (shown_die term) values)
          terms (zip_with shown terms raws).
Proof.
  intros Hvalid Hshape.
  induction Hshape as [|term raw terms raws [Hlen Hraw] _ IH];
    cbn [zip_with]; constructor.
  - inversion Hvalid as [|? ? (Hc & _) _]; subst. split.
    + unfold shown. destruct (sign term =? -1); rewrite ?length_map, Hlen; lia.
    + apply shown_faces. exact Hraw.
  - apply IH. inversion Hvalid; assumption.
Qed.

Section RollRange.
Context {G : Type} `{RandomSource G}.

(** X3: the total of a roll lies between the least and the greatest
    total of the expression: every die at 1 or at its size, whichever the
    sign of its term makes smaller or greater, plus the modifiers. *)
Theorem roll_total_in_range (expr : string) (parsed : DiceExpression) (g : G) :
  parse_expression expr = OK parsed ->
  exists res g',
    roll expr g = (OK res, g')
    /\ low_total parsed <= DiceRollResult.total res <= high_total parsed.
Proof.
  intros Hparse.
  pose proof (parse_expression_valid _ _ Hparse) as Hvalid.
  pose proof (roll_parsed expr parsed g Hparse) as Hroll. cbv zeta in Hroll.
  eexists _, _. split; [exact Hroll|]. cbn [DiceRollResult.total].
  pose proof (dice_total_bounds _ _ Hvalid (draw_terms_shape _ g Hvalid)).
  unfold low_total, high_total. lia.
Qed.

(** X4: in the result of a roll the entry of a dice term holds as many
    values as the term has dice; each is a face 1..size of the die, or
    the negative of one when the sign of the term is -1. *)
Theorem roll_dice_results_shape (expr : string) (parsed : DiceExpression) (g : G) :
  parse_expression expr = OK parsed ->
  exists res g',
    roll expr g = (OK res, g')
    /\ Forall2 (fun term values =>
                  Z.of_nat (length values) = count term
                  /\ Forall (shown_die term) values)
               (DiceExpression.dice parsed) (DiceRollResult.dice_results res).
Proof.
  intros Hparse.
  pose proof (parse_expression_valid _ _ Hparse) as Hvalid.
  pose proof (roll_parsed expr parsed g Hparse) as Hroll. cbv zeta in Hroll.
  eexists _, _. split; [exact Hroll|]. cbn [DiceRollResult.dice_results].
  apply shown_shape; [exact Hvalid | apply draw_terms_shape; exact Hvalid].
Qed.

End RollRange.

Lemma roll_total_in_range_witness :
  exists res g',
    roll "2d6-1d4+3" (7 : Z) = (OK res, g')
    /\ 2 - 4 + 3 <= DiceRollResult.total res <= 12 - 1 + 3.
Proof. exact (roll_total_in_range "2d6-1d4+3" parsed_2d6_minus_1d4_plus_3 (7 : Z) eq_refl). Defined.

Lemma roll_dice_results_shape_witness :
  exists res g',
    roll "2d6-1d4+3" (7 : Z) = (OK res, g')
    /\ Forall2 (fun term values =>
                  Z.of_nat (length values) = count term
                  /\ Forall (shown_die term) values)
               (DiceExpression.dice parsed_2d6_minus_1d4_plus_3)
               (DiceRollResult.dice_results res).
Proof. exact (roll_dice_results_shape "2d6-1d4+3" parsed_2d6_minus_1d4_plus_3 (7 : Z) eq_refl). Defined.

Lemma total_of_repeat (v : Z) (n : nat) : total_of (repeat v n) = Z.of_nat n * v.
Proof.
  unfold total_of. induction n as [|n IH]; cbn [repeat fold_right]; [lia|].
  rewrite IH, Nat2Z.inj_succ. lia.
Qed.

Lemma draw_scripted (size v : Z) (n : nat) (rest : list Z) :
  1 <= v <= size ->
  draw size n (repeat v n ++ rest) = (repeat v n, rest).
Proof.
  intros Hv. induction n as [|n IH]; cbn [draw repeat app]; [reflexivity|].
  cbn [randint scripted scripted_randint]. rewrite IH.
  replace (Z.max 1 (Z.min size v)) with v by lia. reflexivity.
Qed.

Lemma draw_terms_scripted (face : DiceTerm -> Z) (terms : list DiceTerm) :
  Forall (fun term => 1 <= face term <= size term) terms ->
  draw_terms terms (script_of face terms)
  = (map (fun term => repeat (face term) (Z.to_nat (count term))) terms, []).
Proof.
  unfold script_of.
  induction 1 as [|term terms Hface _ IH]; cbn [draw_terms map concat]; [reflexivity|].
  rewrite (draw_scripted _ _ _ _ Hface), IH. reflexivity.
Qed.

Lemma dice_total_scripted (face : DiceTerm -> Z) (terms : list DiceTerm) :
  Forall valid_term terms ->
  dice_total terms (map (fun term => repeat (face term) (Z.to_nat (count term))) terms)
  = total_of (map (fun term => sign term * (count term * face term)) terms).
Proof.
  unfold total_of.
  induction 1 as [|term terms (Hc & _) _ IH]; cbn [dice_total map fold_right]; [reflexivity|].
  rewrite IH, total_of_repeat, Z2Nat.id by exact Hc. reflexivity.
Qed.

Lemma face_facts (term : DiceTerm) :
  valid_term term ->
  sign term * (count term * lowest_face term) = term_low term
  /\ sign term * (count term * highest_face term) = term_high term
  /\ 1 <= lowest_face term <= size term
  /\ 1 <= highest_face term <= size term.
Proof.
  intros (Hc & Hs & Hsg).
  unfold lowest_face, highest_face, term_low, term_high.
  destruct Hsg as [E|E]; rewrite E.
  - change (1 =? -1) with false. cbv iota. repeat split; lia.
  - change (-1 =? -1) with true. cbv iota. repeat split; lia.
Qed.

Lemma lowest_face_low (terms : list DiceTerm) :
  Forall valid_term terms ->
  map (fun term => sign term * (count term * lowest_face term)) terms = map term_low terms
  /\ map (fun term => sign term * (count term * highest_face term)) terms
     = map term_high terms
  /\ Forall (fun term => 1 <= lowest_face term <= size term) terms
  /\ Forall (fun term => 1 <= highest_face term <= size term) terms.
Proof.
  induction 1 as [|term terms Hterm _ (IH1 & IH2 & IH3 & IH4)]; cbn [map].
  { split; [reflexivity|]. split; [reflexivity|]. split; constructor. }
  destruct (face_facts term Hterm) as (F1 & F2 & F3 & F4).
  rewrite IH1, IH2, F1, F2.
  split; [reflexivity|]. split; [reflexivity|]. split; constructor; assumption.
Qed.

(** X5: the range of the totals is tight: for a parsed expression there
    is a source on which [roll] returns the least total, and one on which
    it returns the greatest. *)
Theorem roll_range_attained (expr : string) (parsed : DiceExpression) :
  parse_expression expr = OK parsed ->
  exists (g_low g_high : list Z) res_low res_high,
    fst (roll expr g_low) = OK res_low
    /\ DiceRollResult.total res_low = low_total parsed
    /\ fst (roll expr g_high) = OK res_high
    /\ DiceRollResult.total res_high = high_total parsed.
Proof.
  intros Hparse.
  pose proof (parse_expression_valid _ _ Hparse) as Hvalid.
  destruct (lowest_face_low _ Hvalid) as (Hlow & Hhigh & Hflow & Hfhigh).
  exists (script_of lowest_face (DiceExpression.dice parsed)),
         (script_of highest_face (DiceExpression.dice parsed)).
  eexists _, _.
  rewrite !(roll_parsed expr parsed _ Hparse).
  rewrite (draw_terms_scripted _ _ Hflow), (draw_terms_scripted _ _ Hfhigh).
  cbn [fst snd DiceRollResult.total].
  rewrite !(dice_total_scripted _ _ Hvalid), Hlow, Hhigh.
  unfold low_total, high_total.
  split; [reflexivity|]. split; [cbn [DiceRollResult.total]; lia|].
  split; [reflexivity|]. cbn [DiceRollResult.total]. lia.
Qed.

Lemma roll_range_attained_witness :
  exists (g_low g_high : list Z) res_low res_high,
    fst (roll "2d6-1d4+3" g_low) = OK res_low
    /\ DiceRollResult.total res_low = 2 - 4 + 3
    /\ fst (roll "2d6-1d4+3" g_high) = OK res_high
    /\ DiceRollResult.total res_high = 12 - 1 + 3.
Proof. exact (roll_range_attained "2d6-1d4+3" parsed_2d6_minus_1d4_plus_3 eq_refl). Defined.

Lemma low_high_twice_mean (terms : list DiceTerm) :
  Forall valid_term terms ->
  total_of (map term_low terms) + total_of (map term_high terms)
  = twice_dice_mean terms.
Proof.
  unfold total_of, twice_dice_mean.
  induction 1 as [|term terms (_ & _ & Hsg) _ IH]; cbn [map fold_right]; [reflexivity|].
  rewrite <- IH. unfold term_low, term_high, twice_mean.
  destruct Hsg as [E|E]; rewrite E.
  - change (1 =? -1) with false. cbv iota. lia.
  - change (-1 =? -1) with true. cbv iota. lia.
Qed.

Lemma twice_dice_mean_abs (terms : list DiceTerm) :
  Forall valid_term terms -> Z.abs (twice_dice_mean terms) <= dice_magnitude terms.
Proof.
  induction 1 as [|t ts Ht _ IH]; cbn; [lia|].
  fold (twice_dice_mean ts). fold (dice_magnitude ts).
  pose proof (twice_mean_abs t Ht). lia.
Qed.

(** X6: while [magnitude parsed < 2^53], that is twice the absolute
    modifier total plus [count * (size + 1)] for every dice term, the
    expected value of an expression is the midpoint of the range of its
    roll totals. *)
Theorem expected_value_midpoint (expr : string) (parsed : DiceExpression) :
  parse_expression expr = OK parsed ->
  magnitude parsed < 2 ^ 53 ->
  exists v q,
    expected_value expr = OK v
    /\ Float.value v = Some q
    /\ (q == (low_total parsed + high_total parsed) # 2)%Q.
Proof.
  intros Hparse Hbound. unfold magnitude in Hbound.
  pose proof (parse_expression_valid _ _ Hparse) as Hvalid.
  pose proof (dice_magnitude_nonneg _ Hvalid) as Hrest.
  pose proof (twice_dice_mean_abs _ Hvalid) as Hd.
  pose proof (low_high_twice_mean _ Hvalid) as Hmid.
  unfold expected_value. rewrite Hparse. cbn [bind].
  rewrite (expected_terms_int _ _ Hvalid Hbound).
  unfold low_total, high_total, DiceExpression.modifier_total in *.
  fold (Dice.sum (map value (DiceExpression.modifiers parsed))) in *.
  rewrite sum_total_of in *.
  set (m := total_of (map value (DiceExpression.modifiers parsed))) in *.
  destruct (DiceExpression.dice parsed) as [|term terms] eqn:Hdice.
  - exists (Float.Int m), (inject_Z m). split; [reflexivity|]. split; [reflexivity|].
    cbn [map total_of fold_right]. unfold Qeq, inject_Z. cbn [Qnum Qden]. lia.
  - destruct (halves_value (2 * m + twice_dice_mean (term :: terms)))
      as (q & Hq & Heq); [lia|].
    eexists _, q. split; [reflexivity|]. split; [exact Hq|].
    rewrite Heq. unfold Qeq. cbn [Qnum Qden]. lia.
Qed.

Lemma expected_value_midpoint_witness :
  exists v q,
    expected_value "2d4+2" = OK v
    /\ Float.value v = Some q
    /\ (q == (4 + 10) # 2)%Q.
Proof.
  destruct (expected_value_midpoint "2d4+2" parsed_2d4_plus_2 eq_refl)
    as (v & q & Hv & Hq & Heq).
  { vm_compute. reflexivity. }
  exists v, q. split; [exact Hv|]. split; [exact Hq|].
  rewrite Heq. vm_compute. reflexivity.
Defined.

(** ** Letter case and spaces in the parser *)

Ltac each_char c := destruct c as [[] [] [] [] [] [] [] []]; vm_compute; reflexivity.

Lemma lower_char_idempotent (c : ascii) :
  Str.lower_char (Str.lower_char c) = Str.lower_char c.
Proof. each_char c. Qed.

Lemma lower_idempotent (s : string) : Str.lower (Str.lower s) = Str.lower s.
Proof.
  induction s as [|c r IH]; cbn [Str.lower]; [reflexivity|].
  rewrite lower_char_idempotent, IH. reflexivity.
Qed.

Lemma lower_char_sign (c : ascii) : is_sign (Str.lower_char c) = is_sign c.
Proof. each_char c. Qed.

Lemma lower_char_plus (c : ascii) : Ascii.eqb (Str.lower_char c) "+" = Ascii.eqb c "+".
Proof. each_char c. Qed.

Lemma lower_char_minus (c : ascii) : Ascii.eqb (Str.lower_char c) "-" = Ascii.eqb c "-".
Proof. each_char c. Qed.

Lemma lower_char_space (c : ascii) : Ascii.eqb (Str.lower_char c) " " = Ascii.eqb c " ".
Proof. each_char c. Qed.

Lemma lower_char_underscore (c : ascii) :
  Ascii.eqb (Str.lower_char c) "_" = Ascii.eqb c "_".
Proof. each_char c. Qed.

Lemma lower_char_isspace (c : ascii) : Str.isspace (Str.lower_char c) = Str.isspace c.
Proof. each_char c. Qed.

Lemma lower_char_int_isspace (c : ascii) :
  Str.int_isspace (Str.lower_char c) = Str.int_isspace c.
Proof. each_char c. Qed.

Lemma lower_char_is_digit (c : ascii) : Str.is_digit (Str.lower_char c) = Str.is_digit c.
Proof. each_char c. Qed.

Lemma lower_char_digit (c : ascii) : Str.is_digit c = true -> Str.lower_char c = c.
Proof. destruct c as [[] [] [] [] [] [] [] []]; vm_compute; intros E; congruence. Qed.

Lemma lower_remove_spaces (s : string) :
  Str.remove_spaces (Str.lower s) = Str.lower (Str.remove_spaces s).
Proof.
  induction s as [|c r IH]; cbn [Str.lower Str.remove_spaces]; [reflexivity|].
  rewrite lower_char_space, IH. destruct (Ascii.eqb c " "); reflexivity.
Qed.

Lemma lower_take_run (s : string) : take_run (Str.lower s) = Str.lower (take_run s).
Proof.
  induction s as [|c r IH]; cbn [Str.lower take_run]; [reflexivity|].
  rewrite lower_char_sign, IH. destruct (is_sign c); reflexivity.
Qed.

Lemma lower_length (s : string) : String.length (Str.lower s) = String.length s.
Proof. induction s as [|c r IH]; cbn [Str.lower String.length]; congruence. Qed.

Lemma lower_match_token (s : string) :
  match_token (Str.lower s) = option_map Str.lower (match_token s).
Proof.
  destruct s as [|c r]; [reflexivity|].
  cbn [Str.lower match_token take_run]. rewrite lower_char_sign, lower_take_run.
  destruct (is_sign c); [|reflexivity].
  destruct (take_run r); reflexivity.
Qed.

Lemma lower_findall (s : string) :
  forall inside, findall_from (Str.lower s) inside = map Str.lower (findall_from s inside).
Proof.
  induction s as [|c r IH]; intros inside; [reflexivity|].
  change (Str.lower (String c r)) with (String (Str.lower_char c) (Str.lower r)).
  cbn [findall_from]. destruct inside as [|k]; [|apply IH].
  change (String (Str.lower_char c) (Str.lower r)) with (Str.lower (String c r)).
  rewrite lower_match_token.
  destruct (match_token (String c r)) as [tok|]; cbn [option_map map].
  - rewrite lower_length, IH. reflexivity.
  - apply IH.
Qed.

Lemma lower_lstrip (s : string) : Str.lstrip (Str.lower s) = Str.lower (Str.lstrip s).
Proof.
  induction s as [|c r IH]; cbn [Str.lower Str.lstrip]; [reflexivity|].
  rewrite lower_char_isspace. destruct (Str.isspace c); [exact IH|reflexivity].
Qed.

Lemma lower_rstrip (s : string) : Str.rstrip (Str.lower s) = Str.lower (Str.rstrip s).
Proof.
  induction s as [|c r IH]; cbn [Str.lower Str.rstrip]; [reflexivity|].
  rewrite IH, lower_char_isspace.
  destruct (Str.rstrip r); cbn [Str.lower]; [destruct (Str.isspace c)|]; reflexivity.
Qed.

Lemma lower_strip (s : string) : Str.strip (Str.lower s) = Str.lower (Str.strip s).
Proof. unfold Str.strip. rewrite lower_lstrip, lower_rstrip. reflexivity. Qed.

Lemma lower_skip_int_space (s : string) :
  Str.skip_int_space (Str.lower s) = Str.lower (Str.skip_int_space s).
Proof.
  induction s as [|c r IH]; cbn [Str.lower Str.skip_int_space]; [reflexivity|].
  rewrite lower_char_int_isspace. destruct (Str.int_isspace c); [exact IH|reflexivity].
Qed.

Lemma lower_scan_digits (s : string) :
  forall prev acc n,
    Str.scan_digits (Str.lower s) (option_map Str.lower_char prev) acc n
    = option_map lower_rest (Str.scan_digits s prev acc n).
Proof.
  induction s as [|c r IH]; intros prev acc n.
  - cbn [Str.lower Str.scan_digits].
    destruct prev as [p|]; cbn [option_map]; [|reflexivity].
    rewrite lower_char_underscore. destruct (Ascii.eqb p "_"); reflexivity.
  - cbn [Str.lower Str.scan_digits].
    rewrite lower_char_is_digit, lower_char_underscore.
    destruct (Str.is_digit c) eqn:Hdigit.
    + rewrite <- (IH (Some c)). cbn [option_map].
      rewrite (lower_char_digit c Hdigit). reflexivity.
    + destruct (Ascii.eqb c "_").
      * destruct prev as [p|]; cbn [option_map]; [|reflexivity].
        rewrite lower_char_underscore. destruct (Ascii.eqb p "_"); [reflexivity|].
        rewrite <- (IH (Some c)). reflexivity.
      * destruct prev as [p|]; cbn [option_map]; [|reflexivity].
        rewrite lower_char_underscore. destruct (Ascii.eqb p "_"); reflexivity.
Qed.

Lemma int_unfold (s : string) :
  Str.int s = int_after_sign (split_sign (Str.skip_int_space s)).
Proof. reflexivity. Qed.

Lemma lower_split_sign (s : string) :
  split_sign (Str.lower s)
  = (fst (split_sign s), Str.lower (snd (split_sign s))).
Proof.
  destruct s as [|c r]; [reflexivity|].
  destruct c as [[] [] [] [] [] [] [] []]; reflexivity.
Qed.

(** [int()] reads a string and its lower-cased form alike. *)
Lemma lower_int (s : string) : Str.int (Str.lower s) = Str.int s.
Proof.
  rewrite !int_unfold, lower_skip_int_space, lower_split_sign.
  destruct (split_sign (Str.skip_int_space s)) as [neg s0]. cbn [fst snd].
  unfold int_after_sign.
  change (@None ascii) with (option_map Str.lower_char None).
  rewrite lower_scan_digits. cbn [option_map].
  destruct (Str.scan_digits s0 None 0 0) as [[[v n] rest]|]; cbn [option_map lower_rest];
    [|reflexivity].
  destruct (Str.int_max_str_digits <? n)%nat; [reflexivity|].
  rewrite lower_skip_int_space. destruct (Str.skip_int_space rest); reflexivity.
Qed.

Lemma lower_contains_d (s : string) :
  Str.contains_d (Str.lower (Str.lower s)) = Str.contains_d (Str.lower s).
Proof. rewrite lower_idempotent. reflexivity. Qed.

Lemma lower_empty (s : string) : Str.lower s = EmptyString <-> s = EmptyString.
Proof. destruct s; cbn [Str.lower]; split; intros E; try discriminate; reflexivity. Qed.

(** A token and its lower-cased form parse to the same term. *)
Lemma lower_parse_token (token : string) :
  _parse_token (Str.lower token) = _parse_token token.
Proof.
  unfold _parse_token. rewrite lower_strip.
  destruct (Str.strip token) as [|c0 rest]; [reflexivity|].
  cbn [Str.lower]. rewrite lower_char_plus, lower_char_minus.
  change (String (Str.lower_char c0) (Str.lower rest)) with (Str.lower (String c0 rest)).
  assert (Hbody : forall sg tok,
    (if Str.contains_d (Str.lower (Str.lower tok)) then
       let '(count_part, size_part) := Str.split_d (Str.lower (Str.lower tok)) in
       do count <- match count_part with
                   | EmptyString => OK 1
                   | _ => Str.int count_part
                   end;
       do size <- Str.int size_part;
       do term <- new_DiceTerm count size sg;
       OK (Some term, None)
     else
       match Str.lower tok with
       | EmptyString => Raise (ValueError InvalidModifier)
       | _ => do v <- Str.int (Str.lower tok); OK (None, Some {| value := v * sg |})
       end)
    = (if Str.contains_d (Str.lower tok) then
         let '(count_part, size_part) := Str.split_d (Str.lower tok) in
         do count <- match count_part with
                     | EmptyString => OK 1
                     | _ => Str.int count_part
                     end;
         do size <- Str.int size_part;
         do term <- new_DiceTerm count size sg;
         OK (Some term, None)
       else
         match tok with
         | EmptyString => Raise (ValueError InvalidModifier)
         | _ => do v <- Str.int tok; OK (None, Some {| value := v * sg |})
         end)).
  { intros sg tok. rewrite lower_idempotent, lower_int.
    destruct tok; reflexivity. }
  destruct (Ascii.eqb c0 "+"); [apply Hbody|].
  destruct (Ascii.eqb c0 "-"); apply Hbody.
Qed.

Lemma lower_parse_tokens (tokens : list string) :
  forall dice_terms modifiers,
    parse_tokens (map Str.lower tokens) dice_terms modifiers
    = parse_tokens tokens dice_terms modifiers.
Proof.
  induction tokens as [|token tokens IH]; intros ds ms; cbn [map parse_tokens];
    [reflexivity|].
  rewrite lower_parse_token.
  destruct (_parse_token token) as [[[d|] [m|]]|]; cbn [bind]; try reflexivity; apply IH.
Qed.

(** X7: the parser does not look at the case of letters: an expression
    and its lower-cased form parse to the same result, or stop at the same
    [raise] of the source (the text a message quotes aside); so "2D6" is
    "2d6". *)
Theorem parse_expression_lower (expr : string) :
  parse_expression (Str.lower expr) = parse_expression expr.
Proof.
  unfold parse_expression. rewrite lower_remove_spaces.
  destruct (Str.remove_spaces expr) as [|c r]; [reflexivity|].
  change (Str.lower (String c r)) with (String (Str.lower_char c) (Str.lower r)).
  cbv iota.
  change (String (Str.lower_char c) (Str.lower r)) with (Str.lower (String c r)).
  unfold findall. rewrite lower_findall, lower_parse_tokens. reflexivity.
Qed.

(** X8: a "+" or "-" at the very end of an expression is never seen by
    the term parser: an expression with some character other than a space
    parses with the sign appended as it does without it, to the same
    result or the same [raise] of the source. *)
Theorem trailing_sign_ignored (expr : string) (c : ascii) :
  is_sign c = true ->
  Str.remove_spaces expr <> EmptyString ->
  parse_expression (expr +++ String c EmptyString) = parse_expression expr.
Proof.
  intros Hc Hne. unfold parse_expression. rewrite remove_spaces_app.
  assert (Hkeep : Str.remove_spaces (String c EmptyString) = String c EmptyString).
  { unfold is_sign in Hc. cbn [Str.remove_spaces].
    destruct (Ascii.eqb c " ") eqn:Esp; [|reflexivity].
    apply Ascii.eqb_eq in Esp. rewrite Esp in Hc. discriminate Hc. }
  rewrite Hkeep.
  destruct (Str.remove_spaces expr) as [|a r]; [contradiction|].
  unfold findall. rewrite (findall_trailing_sign (String a r) c Hc).
  rewrite append_String. reflexivity.
Qed.

Lemma trailing_sign_ignored_witness :
  parse_expression ("2d6-1d4+3" +++ "-") = parse_expression "2d6-1d4+3".
Proof.
  apply (trailing_sign_ignored "2d6-1d4+3" "-"); [reflexivity|].
  vm_compute. discriminate.
Defined.

(** ** What the resolver guarantees *)

Section ResolverRanges.
Context {G : Type} `{RandomSource G}.

(** A valid state selects a roller; what it keeps is one of the d20 it
    drew, and every d20 is in 1..20. *)
Lemma roll_state_bounds (state : string) (g : G) :
  valid_state state ->
  exists natural detail g',
    _roll_d20 state g = (OK (natural, detail), g')
    /\ 1 <= natural <= 20
    /\ Forall (fun d => 1 <= d <= 20) detail
    /\ natural ∈ detail.
Proof.
  pose proof (randint_range 1 20 g ltac:(lia)) as Hfirst.
  pose proof (randint_range 1 20 (snd (randint 1 20 g)) ltac:(lia)) as Hsecond.
  intros [E | [E | E]].
  - rewrite (roll_state_normal _ _ E). unfold roll_d20.
    eexists _, _, _. split; [reflexivity|].
    split; [exact Hfirst|]. split; [repeat constructor; lia|]. apply elem_of_cons. left. reflexivity.
  - rewrite (roll_state_advantage _ _ E), roll_with_advantage_draws.
    eexists _, _, _. split; [reflexivity|].
    split; [lia|]. split; [repeat constructor; lia|].
    destruct (Z.max_spec (fst (randint 1 20 g)) (fst (randint 1 20 (snd (randint 1 20 g)))))
      as [[_ ->] | [_ ->]];
      rewrite !elem_of_cons; auto.
  - rewrite (roll_state_disadvantage _ _ E), roll_with_disadvantage_draws.
    eexists _, _, _. split; [reflexivity|].
    split; [lia|]. split; [repeat constructor; lia|].
    destruct (Z.min_spec (fst (randint 1 20 g)) (fst (randint 1 20 (snd (randint 1 20 g)))))
      as [[_ ->] | [_ ->]];
      rewrite !elem_of_cons; auto.
Qed.

(** [resolve_check] on a roll that succeeded. *)
Lemma resolve_check_run (modifier dc : Z) (advantage : string) (g g' : G)
    (n : Z) (detail : list Z) :
  _roll_d20 advantage g = (OK (n, detail), g') ->
  resolve_check modifier dc advantage g
  = (OK {| total := n + modifier; Rules.modifier := modifier; dc := dc;
           success := n + modifier >=? dc; natural := n; roll_details := detail |},
     g').
Proof. intros Hroll. unfold resolve_check. rewrite Hroll. reflexivity. Qed.

(** X9: a check with a valid advantage state keeps a d20 of 1..20 that
    is one of the dice it reports, so its total lies within
    [modifier + 1 .. modifier + 20]: a DC of at most [modifier + 1] is
    always met and a DC above [modifier + 20] never. *)
Theorem resolve_check_bounds (modifier dc : Z) (advantage : string) (g : G) :
  valid_state advantage ->
  exists r g',
    resolve_check modifier dc advantage g = (OK r, g')
    /\ 1 <= natural r <= 20
    /\ modifier + 1 <= Rules.total r <= modifier + 20
    /\ Forall (fun d => 1 <= d <= 20) (roll_details r)
    /\ natural r ∈ roll_details r
    /\ (dc <= modifier + 1 -> success r = true)
    /\ (modifier + 20 < dc -> success r = false).
Proof.
  intros Hvalid.
  destruct (roll_state_bounds advantage g Hvalid) as (n & d & g' & Hroll & Hn & Hd & Hin).
  eexists _, g'. split; [apply (resolve_check_run _ _ _ _ _ _ _ Hroll)|].
  cbn [natural Rules.total roll_details success].
  split; [exact Hn|]. split; [lia|]. split; [exact Hd|]. split; [exact Hin|].
  split; intros Hdc.
  - apply Z.geb_le. lia.
  - destruct (Z.geb_spec (n + modifier) dc); [lia|reflexivity].
Qed.

(** X10: on the same source, the check with disadvantage, the plain
    check and the check with advantage keep d20s in this order: the plain
    check keeps the first die, the other two keep the smaller and the
    larger of the same two dice.  So a check that succeeds with
    disadvantage succeeds plainly, and one that succeeds plainly succeeds
    with advantage. *)
Theorem advantage_never_hurts (modifier dc : Z) (low plain high : string) (g : G) :
  Str.lower low = "disadvantage" ->
  Str.lower plain = "normal" ->
  Str.lower high = "advantage" ->
  exists rl rp rh gl gp second,
    resolve_check modifier dc low g = (OK rl, gl)
    /\ resolve_check modifier dc plain g = (OK rp, gp)
    /\ resolve_check modifier dc high g = (OK rh, gl)
    /\ roll_details rp = [natural rp]
    /\ roll_details rl = [natural rp; second]
    /\ roll_details rh = [natural rp; second]
    /\ natural rl = Z.min (natural rp) second
    /\ natural rh = Z.max (natural rp) second
    /\ natural rl <= natural rp <= natural rh
    /\ (success rl = true -> success rp = true)
    /\ (success rp = true -> success rh = true).
Proof.
  intros Hl Hp Hh.
  pose proof (roll_state_disadvantage low g Hl) as Rl.
  pose proof (roll_state_normal plain g Hp) as Rp.
  pose proof (roll_state_advantage high g Hh) as Rh.
  rewrite roll_with_disadvantage_draws in Rl. rewrite roll_with_advantage_draws in Rh.
  unfold roll_d20 in Rp.
  eexists _, _, _, _, _, _.
  split; [apply (resolve_check_run _ _ _ _ _ _ _ Rl)|].
  split; [apply (resolve_check_run _ _ _ _ _ _ _ Rp)|].
  split; [apply (resolve_check_run _ _ _ _ _ _ _ Rh)|].
  cbn [natural roll_details success].
  split; [reflexivity|]. split; [reflexivity|]. split; [reflexivity|].
  split; [reflexivity|]. split; [reflexivity|]. split; [lia|].
  rewrite !Z.geb_le. split; lia.
Qed.

(** X11: the dice of a check do not depend on the modifier or the DC: on
    the same source a check with a modifier at least as large against a
    DC at most as large keeps the same d20, reports the same dice and
    leaves the source in the same state, and it succeeds whenever the
    first one does. *)
Theorem resolve_check_monotone (modifier modifier' dc dc' : Z)
    (advantage : string) (g : G) :
  valid_state advantage ->
  modifier <= modifier' ->
  dc' <= dc ->
  exists r r' g',
    resolve_check modifier dc advantage g = (OK r, g')
    /\ resolve_check modifier' dc' advantage g = (OK r', g')
    /\ natural r' = natural r
    /\ roll_details r' = roll_details r
    /\ Rules.total r' = Rules.total r + (modifier' - modifier)
    /\ (success r = true -> success r' = true).
Proof.
  intros Hvalid Hm Hdc.
  destruct (roll_state_valid advantage g Hvalid) as (n & d & g' & Hroll).
  eexists _, _, g'.
  split; [apply (resolve_check_run _ _ _ _ _ _ _ Hroll)|].
  split; [apply (resolve_check_run _ _ _ _ _ _ _ Hroll)|].
  cbn [natural roll_details success Rules.total].
  split; [reflexivity|]. split; [reflexivity|]. split; [lia|].
  rewrite !Z.geb_le. lia.
Qed.

(** The contest on two rolls that succeeded. *)
Lemma resolve_contest_run (modifier_a modifier_b : Z) (advantage_a advantage_b : string)
    (g g1 g2 : G) (na nb : Z) (da db : list Z) :
  _roll_d20 advantage_a g = (OK (na, da), g1) ->
  _roll_d20 advantage_b g1 = (OK (nb, db), g2) ->
  exists r,
    resolve_contest modifier_a modifier_b advantage_a advantage_b g = (OK r, g2)
    /\ total_a r = na + modifier_a
    /\ total_b r = nb + modifier_b
    /\ natural (check_a r) = na
    /\ natural (check_b r) = nb
    /\ roll_details (check_a r) = da
    /\ roll_details (check_b r) = db
    /\ winner r = (if na + modifier_a >? nb + modifier_b then Some "a"
                   else if nb + modifier_b >? na + modifier_a then Some "b"
                   else None).
Proof.
  intros Ha Hb. unfold resolve_contest.
  rewrite (resolve_check_run modifier_a 0 _ _ _ _ _ Ha).
  rewrite (resolve_check_run modifier_b 0 _ _ _ _ _ Hb).
  eexists. split; [reflexivity|]. cbn. repeat split; reflexivity.
Qed.

(** X12: a contest depends on the modifiers only through their
    difference: adding the same amount to both sides leaves the dice, the
    winner and the final state of the source as they are and shifts both
    totals by that amount.  It is a tie exactly when the two kept d20s
    differ by the opposite of the modifiers' difference. *)
Theorem resolve_contest_shift (modifier_a modifier_b k : Z)
    (advantage_a advantage_b : string) (g : G) :
  valid_state advantage_a ->
  valid_state advantage_b ->
  exists r r' g',
    resolve_contest modifier_a modifier_b advantage_a advantage_b g = (OK r, g')
    /\ resolve_contest (modifier_a + k) (modifier_b + k) advantage_a advantage_b g
       = (OK r', g')
    /\ winner r' = winner r
    /\ total_a r' = total_a r + k
    /\ total_b r' = total_b r + k
    /\ natural (check_a r') = natural (check_a r)
    /\ natural (check_b r') = natural (check_b r)
    /\ roll_details (check_a r') = roll_details (check_a r)
    /\ roll_details (check_b r') = roll_details (check_b r)
    /\ (is_tie r = true
        <-> natural (check_a r) - natural (check_b r) = modifier_b - modifier_a).
Proof.
  intros Ha Hb.
  destruct (roll_state_valid advantage_a g Ha) as (na & da & g1 & Hra).
  destruct (roll_state_valid advantage_b g1 Hb) as (nb & db & g2 & Hrb).
  destruct (resolve_contest_run modifier_a modifier_b _ _ _ _ _ _ _ _ _ Hra Hrb)
    as (r & Hr & Hta & Htb & Hna & Hnb & Hda & Hdb & Hw).
  destruct (resolve_contest_run (modifier_a + k) (modifier_b + k) _ _ _ _ _ _ _ _ _ Hra Hrb)
    as (r' & Hr' & Hta' & Htb' & Hna' & Hnb' & Hda' & Hdb' & Hw').
  exists r, r', g2. split; [exact Hr|]. split; [exact Hr'|].
  split.
  { rewrite Hw, Hw'.
    destruct (Z.gtb_spec (na + modifier_a) (nb + modifier_b)),
             (Z.gtb_spec (na + (modifier_a + k)) (nb + (modifier_b + k)));
      try lia; [reflexivity|].
    destruct (Z.gtb_spec (nb + modifier_b) (na + modifier_a)),
             (Z.gtb_spec (nb + (modifier_b + k)) (na + (modifier_a + k)));
      try lia; reflexivity. }
  split; [lia|]. split; [lia|]. split; [congruence|]. split; [congruence|].
  split; [congruence|]. split; [congruence|].
  unfold is_tie. rewrite Hw, Hna, Hnb.
  destruct (Z.gtb_spec (na + modifier_a) (nb + modifier_b));
    [split; [discriminate|lia]|].
  destruct (Z.gtb_spec (nb + modifier_b) (na + modifier_a));
    [split; [discriminate|lia]|].
  split; [lia|reflexivity].
Qed.

End ResolverRanges.

Lemma resolve_check_bounds_witness :
  exists r g',
    resolve_check 5 6 "Advantage" (42 : Z) = (OK r, g')
    /\ 6 <= Rules.total r <= 25 /\ success r = true.
Proof.
  destruct (resolve_check_bounds 5 6 "Advantage" (42 : Z))
    as (r & g' & Hr & _ & Ht & _ & _ & Hs & _).
  { right. left. reflexivity. }
  exists r, g'. split; [exact Hr|]. split; [exact Ht|]. apply Hs. lia.
Defined.

Lemma advantage_never_hurts_witness :
  exists rl rp rh gl gp,
    resolve_check 5 10 "Disadvantage" (42 : Z) = (OK rl, gl)
    /\ resolve_check 5 10 "NORMAL" (42 : Z) = (OK rp, gp)
    /\ resolve_check 5 10 "advantage" (42 : Z) = (OK rh, gl)
    /\ natural rl <= natural rp <= natural rh.
Proof.
  destruct (advantage_never_hurts 5 10 "Disadvantage" "NORMAL" "advantage" (42 : Z)
              eq_refl eq_refl eq_refl)
    as (rl & rp & rh & gl & gp & second & Hl & Hp & Hh & _ & _ & _ & _ & _ & Hord & _).
  exists rl, rp, rh, gl, gp.
  split; [exact Hl|]. split; [exact Hp|]. split; [exact Hh|]. exact Hord.
Defined.

Lemma resolve_check_monotone_witness :
  exists r r' g',
    resolve_check 2 15 "normal" (42 : Z) = (OK r, g')
    /\ resolve_check 5 12 "normal" (42 : Z) = (OK r', g')
    /\ natural r' = natural r
    /\ (success r = true -> success r' = true).
Proof.
  destruct (resolve_check_monotone 2 5 15 12 "normal" (42 : Z))
    as (r & r' & g' & Hr & Hr' & Hn & _ & _ & Hs).
  { left. reflexivity. }
  { lia. }
  { lia. }
  exists r, r', g'. split; [exact Hr|]. split; [exact Hr'|]. split; [exact Hn|exact Hs].
Defined.

Lemma resolve_contest_shift_witness :
  exists r r' g',
    resolve_contest 4 1 "normal" "DISADVANTAGE" (7 : Z) = (OK r, g')
    /\ resolve_contest (4 + 10) (1 + 10) "normal" "DISADVANTAGE" (7 : Z) = (OK r', g')
    /\ winner r' = winner r.
Proof.
  destruct (resolve_contest_shift 4 1 10 "normal" "DISADVANTAGE" (7 : Z))
    as (r & r' & g' & Hr & Hr' & Hw & _).
  { left. reflexivity. }
  { right. right. reflexivity. }
  exists r, r', g'. split; [exact Hr|]. split; [exact Hr'|]. exact Hw.
Defined.

(** ** Ability scores *)

Lemma validate_score_eq (score r : Z) :
  validate_score score = OK r -> r = score /\ 1 <= score <= 30.
Proof.
  intros Hv. split; [|exact (validate_score_inv _ _ Hv)].
  unfold validate_score in Hv.
  destruct (negb ((1 <=? score) && (score <=? 30))); congruence.
Qed.

Lemma validate_score_bad (score : Z) :
  ~ 1 <= score <= 30 -> validate_score score = Raise (ValueError ScoreOutOfRange).
Proof.
  intros Hbad. unfold validate_score.
  destruct (Z.leb_spec 1 score), (Z.leb_spec score 30); cbn; try reflexivity; lia.
Qed.

(** X13: the ability modifier is [(score - 10) / 2] rounded down, also
    below 10 (9 gives -1); it is defined exactly for the scores 1..30,
    lies in -5..10 and never decreases when the score grows. *)
Theorem modifier_rounds_down (score : Z) :
  (1 <= score <= 30 ->
   exists m, Abilities.modifier score = OK m
             /\ 2 * m <= score - 10 <= 2 * m + 1
             /\ -5 <= m <= 10)
  /\ (~ 1 <= score <= 30 ->
      Abilities.modifier score = Raise (ValueError ScoreOutOfRange))
  /\ (forall score' m m',
        score <= score' ->
        Abilities.modifier score = OK m ->
        Abilities.modifier score' = OK m' ->
        m <= m').
Proof.
  split; [|split].
  - intros Hr. exists ((score - 10) / 2). unfold Abilities.modifier.
    rewrite (validate_score_ok _ Hr). cbn [bind]. split; [reflexivity|].
    pose proof (Z.div_mod (score - 10) 2 ltac:(lia)).
    pose proof (Z.mod_pos_bound (score - 10) 2 ltac:(lia)). lia.
  - intros Hbad. unfold Abilities.modifier. rewrite (validate_score_bad _ Hbad). reflexivity.
  - intros score' m m' Hle. unfold Abilities.modifier.
    destruct (validate_score score) as [s|] eqn:Hs; [|discriminate].
    destruct (validate_score score') as [s'|] eqn:Hs'; [|discriminate].
    apply validate_score_eq in Hs, Hs'. destruct Hs as [-> _], Hs' as [-> _].
    cbn [bind]. intros Hm Hm'. injection Hm as <-. injection Hm' as <-.
    apply Z.div_le_mono; lia.
Qed.

Lemma post_init_fields (a : AbilityScores) :
  AbilityScores_post_init a = OK a <-> Forall (fun v => 1 <= v <= 30) (fields a).
Proof.
  unfold AbilityScores_post_init, ABILITY_NAMES, validate_fields, getattr, fields.
  cbn [String.eqb Ascii.eqb Bool.eqb bind]. split.
  - destruct (validate_score (strength a)) as [s1|] eqn:H1; [|discriminate].
    destruct (validate_score (dexterity a)) as [s2|] eqn:H2; [|discriminate].
    destruct (validate_score (constitution a)) as [s3|] eqn:H3; [|discriminate].
    destruct (validate_score (intelligence a)) as [s4|] eqn:H4; [|discriminate].
    destruct (validate_score (wisdom a)) as [s5|] eqn:H5; [|discriminate].
    destruct (validate_score (charisma a)) as [s6|] eqn:H6; [|discriminate].
    intros _. apply validate_score_inv in H1, H2, H3, H4, H5, H6.
    repeat (apply Forall_cons; split; [assumption|]). apply List.Forall_nil.
  - intros Hall.
    repeat match goal with
           | Hf : Forall _ (_ :: _) |- _ =>
               apply Forall_cons in Hf; destruct Hf as [? Hf]
           end.
    rewrite !validate_score_ok by assumption. reflexivity.
Qed.

Lemma post_init_result (a b : AbilityScores) :
  AbilityScores_post_init a = OK b -> b = a.
Proof.
  unfold AbilityScores_post_init.
  destruct (validate_fields a ABILITY_NAMES); cbn [bind]; congruence.
Qed.

Lemma to_dict_value (a : AbilityScores) :
  AbilityScores_iter a
  = OK [("strength", strength a); ("dexterity", dexterity a);
        ("constitution", constitution a); ("intelligence", intelligence a);
        ("wisdom", wisdom a); ("charisma", charisma a)]
  /\ to_dict a
     = OK (<["charisma" := charisma a]> (<["wisdom" := wisdom a]>
          (<["intelligence" := intelligence a]> (<["constitution" := constitution a]>
          (<["dexterity" := dexterity a]> (<["strength" := strength a]> ∅)))))).
Proof. split; reflexivity. Qed.

Ltac name_in := apply list_elem_of_In; cbn; auto 10.

Ltac lookup_field :=
  repeat (rewrite lookup_insert_ne by discriminate);
  first [ apply lookup_insert_eq | apply lookup_empty ].

(** X14: [to_dict] never fails and returns a dict with exactly the six
    ability names as keys, each with the value of its field; [__iter__]
    yields the same pairs in the order of [ABILITY_NAMES]. *)
Theorem to_dict_lookup (a : AbilityScores) :
  exists items d,
    AbilityScores_iter a = OK items
    /\ map fst items = ABILITY_NAMES
    /\ map snd items = fields a
    /\ to_dict a = OK d
    /\ d = list_to_map items
    /\ forall name v, d !! name = Some v <-> getattr a name = OK v.
Proof.
  destruct (to_dict_value a) as [Hiter Hdict].
  eexists _, _. split; [exact Hiter|]. split; [reflexivity|]. split; [reflexivity|].
  split; [exact Hdict|]. split.
  { apply map_eq. intros k. cbn [list_to_map foldr fst snd uncurry curry].
    unfold uncurry. cbn [fst snd].
    rewrite !lookup_insert.
    repeat match goal with
           | |- context [decide (?x = k)] => destruct (decide (x = k)) as [<-|?]
           end; try reflexivity; try congruence. }
  intros name v. unfold getattr.
  repeat match goal with
         | |- context [String.eqb name ?x] =>
             destruct (String.eqb_spec name x) as [->|?]
         end;
    try (split; intros Hx;
         [ match type of Hx with
           | ?l = _ => assert (Hl : l = Some _) by lookup_field; rewrite Hl in Hx
           end; congruence
         | injection Hx as <-; lookup_field ]).
  split; [|discriminate]. intros Hx.
  repeat (rewrite lookup_insert_ne in Hx by congruence).
  rewrite lookup_empty in Hx. discriminate Hx.
Qed.

(** X15: the dict of valid scores builds the same scores again:
    [AbilityScores.from_mapping(a.to_dict()) == a]. *)
Theorem from_mapping_to_dict (a : AbilityScores) :
  AbilityScores_post_init a = OK a ->
  exists d, to_dict a = OK d /\ from_mapping d = OK a.
Proof.
  intros Hinit. destruct (to_dict_value a) as [_ Hdict].
  eexists. split; [exact Hdict|].
  pose proof Hinit as Hall. apply post_init_fields in Hall. unfold fields in Hall.
  repeat match goal with
         | Hf : Forall _ (_ :: _) |- _ =>
             apply Forall_cons in Hf; destruct Hf as [? Hf]
         end.
  unfold from_mapping, mapping_score.
  repeat match goal with
         | |- context [?m !! ?k] =>
             let Hl := fresh "Hl" in
             assert (Hl : m !! k = Some _) by lookup_field; rewrite Hl; clear Hl;
             rewrite validate_score_ok by assumption; cbn [bind]
         end.
  unfold new_AbilityScores. destruct a; exact Hinit.
Qed.

(** X16: [from_mapping] succeeds exactly on the mappings that hold a
    score of 1..30 under each of the six ability names, and the scores it
    builds are the values found there; other keys of the mapping play no
    part. *)
Theorem from_mapping_ok (scores : gmap string Z) (a : AbilityScores) :
  from_mapping scores = OK a
  <-> (forall name, name ∈ ABILITY_NAMES ->
         exists v, scores !! name = Some v /\ getattr a name = OK v /\ 1 <= v <= 30).
Proof.
  split.
  - unfold from_mapping, mapping_score.
    destruct (scores !! "strength") as [v1|] eqn:L1; [|discriminate].
    destruct (validate_score v1) as [s1|] eqn:V1; [|discriminate].
    destruct (scores !! "dexterity") as [v2|] eqn:L2; [|discriminate].
    destruct (validate_score v2) as [s2|] eqn:V2; [|discriminate].
    destruct (scores !! "constitution") as [v3|] eqn:L3; [|discriminate].
    destruct (validate_score v3) as [s3|] eqn:V3; [|discriminate].
    destruct (scores !! "intelligence") as [v4|] eqn:L4; [|discriminate].
    destruct (validate_score v4) as [s4|] eqn:V4; [|discriminate].
    destruct (scores !! "wisdom") as [v5|] eqn:L5; [|discriminate].
    destruct (validate_score v5) as [s5|] eqn:V5; [|discriminate].
    destruct (scores !! "charisma") as [v6|] eqn:L6; [|discriminate].
    destruct (validate_score v6) as [s6|] eqn:V6; [|discriminate].
    cbn [bind]. unfold new_AbilityScores. intros Hnew.
    apply post_init_result in Hnew. subst a.
    apply validate_score_eq in V1, V2, V3, V4, V5, V6.
    destruct V1 as [-> ?], V2 as [-> ?], V3 as [-> ?], V4 as [-> ?], V5 as [-> ?],
             V6 as [-> ?].
    intros name Hin. unfold ABILITY_NAMES in Hin.
    repeat match goal with
           | Hin : _ ∈ _ :: _ |- _ => apply elem_of_cons in Hin; destruct Hin as [Hin | Hin]
           | Hin : _ ∈ [] |- _ => apply elem_of_nil in Hin; destruct Hin
           end; subst name; eexists; (split; [eassumption|]); (split; [reflexivity|]);
      assumption.
  - intros Hall.
    assert (Hname : forall name, name ∈ ABILITY_NAMES ->
              exists v, getattr a name = OK v /\ mapping_score scores name = OK v
                        /\ 1 <= v <= 30).
    { intros name Hin. destruct (Hall name Hin) as (v & Hl & Hg & Hr).
      exists v. split; [exact Hg|]. split; [|exact Hr].
      unfold mapping_score. rewrite Hl. apply validate_score_ok. exact Hr. }
    unfold from_mapping.
    destruct (Hname "strength") as (v1 & G1 & -> & R1); [name_in|].
    destruct (Hname "dexterity") as (v2 & G2 & -> & R2); [name_in|].
    destruct (Hname "constitution") as (v3 & G3 & -> & R3); [name_in|].
    destruct (Hname "intelligence") as (v4 & G4 & -> & R4); [name_in|].
    destruct (Hname "wisdom") as (v5 & G5 & -> & R5); [name_in|].
    destruct (Hname "charisma") as (v6 & G6 & -> & R6); [name_in|].
    cbn [bind]. cbn in G1, G2, G3, G4, G5, G6.
    injection G1 as <-. injection G2 as <-. injection G3 as <-.
    injection G4 as <-. injection G5 as <-. injection G6 as <-.
    unfold new_AbilityScores.
    replace {| strength := strength a; dexterity := dexterity a;
               constitution := constitution a; intelligence := intelligence a;
               wisdom := wisdom a; charisma := charisma a |} with a by (destruct a; reflexivity).
    apply post_init_fields. unfold fields.
    repeat (apply Forall_cons; split; [assumption|]). apply List.Forall_nil.
Qed.

Lemma mapping_score_ok (scores : gmap string Z) (name : string) :
  score_ok scores name -> exists v, mapping_score scores name = OK v /\ 1 <= v <= 30.
Proof.
  intros (v & Hl & Hr). exists v. unfold mapping_score. rewrite Hl.
  split; [apply validate_score_ok; exact Hr|exact Hr].
Qed.

Lemma mapping_score_error (scores : gmap string Z) (name : string) (e : exn) :
  score_error scores name e -> mapping_score scores name = Raise e.
Proof.
  unfold mapping_score. intros [[-> ->] | (v & -> & Hbad & ->)]; [reflexivity|].
  apply validate_score_bad. exact Hbad.
Qed.

Lemma mapping_score_cases (scores : gmap string Z) (name : string) :
  score_ok scores name \/ exists e, score_error scores name e.
Proof.
  unfold score_ok, score_error. destruct (scores !! name) as [v|] eqn:Hl.
  - destruct (Z.leb_spec 1 v), (Z.leb_spec v 30);
      first [ left; exists v; split; [reflexivity|lia]
            | right; eexists; right; exists v; split; [reflexivity|]; split;
              [lia|reflexivity] ].
  - right. eexists. left. split; reflexivity.
Qed.

(** X17: [from_mapping] fails at the first of the six names, in the order
    of [ABILITY_NAMES], whose score is missing or outside 1..30: with
    [KeyError] naming the ability for a missing one and [ValueError] for
    one out of range.  It raises nothing else. *)
Theorem from_mapping_errors (scores : gmap string Z) (e : exn) :
  from_mapping scores = Raise e
  <-> exists before name after,
        ABILITY_NAMES = before ++ name :: after
        /\ Forall (score_ok scores) before
        /\ score_error scores name e.
Proof.
  split.
  - intros Hraise. unfold from_mapping in Hraise.
    repeat match type of Hraise with
           | context [mapping_score scores ?name] =>
               let Hok := fresh "Hok" in
               let e' := fresh "e'" in
               let He' := fresh "He'" in
               destruct (mapping_score_cases scores name) as [Hok | [e' He']];
               [ let v := fresh "v" in
                 let Hm := fresh "Hm" in
                 let Hr := fresh "Hr" in
                 destruct (mapping_score_ok _ _ Hok) as (v & Hm & Hr);
                 rewrite Hm in Hraise; cbn [bind] in Hraise; clear Hm
               | rewrite (mapping_score_error _ _ _ He') in Hraise;
                 cbn [bind] in Hraise; injection Hraise as <-;
                 unfold ABILITY_NAMES;
                 match goal with
                 | |- exists before nm after, ?l = _ /\ _ =>
                     first
                       [ exists [], name; eexists; split; [reflexivity|]
                       | exists (firstn 1 l), name; eexists; split; [reflexivity|]
                       | exists (firstn 2 l), name; eexists; split; [reflexivity|]
                       | exists (firstn 3 l), name; eexists; split; [reflexivity|]
                       | exists (firstn 4 l), name; eexists; split; [reflexivity|]
                       | exists (firstn 5 l), name; eexists; split; [reflexivity|] ]
                 end;
                 split; [|exact He'];
                 cbn [firstn]; repeat (apply Forall_cons; split; [assumption|]);
                 apply List.Forall_nil ]
           end.
    exfalso. unfold new_AbilityScores in Hraise.
    match type of Hraise with
    | AbilityScores_post_init ?r = _ =>
        assert (Hfine : AbilityScores_post_init r = OK r)
    end.
    { apply post_init_fields. unfold fields. cbn.
      repeat (apply Forall_cons; split; [assumption|]). apply List.Forall_nil. }
    congruence.
  - intros (before & name & after & Heq & Hbefore & Herr).
    pose proof (mapping_score_error _ _ _ Herr) as Hm.
    unfold from_mapping. unfold ABILITY_NAMES in Heq.
    repeat (destruct before as [|? before];
            [ cbn in Heq; inversion Heq; subst; clear Heq; rewrite Hm; reflexivity
            | cbn in Heq; apply Forall_cons in Hbefore; destruct Hbefore as [Hb Hbefore];
              injection Heq as <- Heq;
              destruct (mapping_score_ok _ _ Hb) as (? & -> & _); cbn [bind]; clear Hb ]).
    destruct before; discriminate Heq.
Qed.

(** X18: [AbilityScores.modifier] looks the ability up by its lower-cased
    name: for valid scores every spelling of one of the six names gives
    the modifier of that field, which lies in -5..10, and any other
    string raises [KeyError] with the string as it was passed. *)
Theorem ability_modifier_any_case (a : AbilityScores) (ability : string) :
  AbilityScores_post_init a = OK a ->
  (Str.lower ability ∈ ABILITY_NAMES ->
   exists score,
     getattr a (Str.lower ability) = OK score
     /\ 1 <= score <= 30
     /\ AbilityScores_modifier a ability = OK ((score - 10) / 2)
     /\ AbilityScores_modifier a (Str.lower ability) = OK ((score - 10) / 2)
     /\ -5 <= (score - 10) / 2 <= 10)
  /\ (Str.lower ability ∉ ABILITY_NAMES ->
      AbilityScores_modifier a ability = Raise (KeyError ability)).
Proof.
  intros Hinit. split.
  - intros Hin.
    destruct (ability_modifier_value a (Str.lower ability) Hinit Hin (lower_idempotent _))
      as (score & Hget & Hmod).
    pose proof (post_init_scores a _ _ Hinit Hget) as Hr.
    exists score. split; [exact Hget|]. split; [exact Hr|].
    split; [|split; [exact Hmod|]].
    + unfold AbilityScores_modifier in *. rewrite lower_idempotent in Hmod.
      rewrite (bool_decide_eq_true_2 _ Hin) in *. exact Hmod.
    + pose proof (Z.div_mod (score - 10) 2 ltac:(lia)).
      pose proof (Z.mod_pos_bound (score - 10) 2 ltac:(lia)). lia.
  - intros Hout. unfold AbilityScores_modifier.
    rewrite (bool_decide_eq_false_2 _ Hout). reflexivity.
Qed.

Lemma from_mapping_to_dict_witness :
  exists d, to_dict nyx_scores = OK d /\ from_mapping d = OK nyx_scores.
Proof. apply (from_mapping_to_dict nyx_scores). reflexivity. Defined.

Lemma ability_modifier_any_case_witness :
  AbilityScores_modifier nyx_scores "DEXterity" = AbilityScores_modifier nyx_scores "dexterity"
  /\ AbilityScores_modifier nyx_scores "dex" = Raise (KeyError "dex").
Proof.
  destruct (ability_modifier_any_case nyx_scores "DEXterity" eq_refl) as [Hin _].
  destruct (ability_modifier_any_case nyx_scores "dex" eq_refl) as [_ Hout].
  split.
  - destruct Hin as (score & _ & _ & Hm & Hl & _).
    { name_in. }
    rewrite Hm. symmetry. exact Hl.
  - apply Hout. intros Hdex. apply list_elem_of_In in Hdex. cbn in Hdex.
    intuition discriminate.
Defined.

(** ** Characters *)

Lemma proficiency_bonus_inv (level bonus : Z) :
  proficiency_bonus level = OK bonus ->
  1 <= level <= 20 /\ bonus = 2 + (level - 1) / 4.
Proof.
  unfold proficiency_bonus.
  destruct (Z.ltb_spec level 1), (Z.gtb_spec level 20); cbn [orb]; intros Hb;
    try discriminate Hb.
  injection Hb as <-. split; [lia|reflexivity].
Qed.

Lemma proficiency_bonus_bad (level : Z) :
  ~ 1 <= level <= 20 -> proficiency_bonus level = Raise (ValueError LevelOutOfRange).
Proof.
  intros Hbad. unfold proficiency_bonus.
  destruct (Z.ltb_spec level 1), (Z.gtb_spec level 20); cbn [orb]; try reflexivity; lia.
Qed.

Lemma bonus_range (level : Z) :
  1 <= level <= 20 ->
  2 <= 2 + (level - 1) / 4 <= 6
  /\ 4 * (2 + (level - 1) / 4 - 2) + 1 <= level <= 4 * (2 + (level - 1) / 4 - 2) + 4.
Proof.
  intros Hr.
  pose proof (Z.div_mod (level - 1) 4 ltac:(lia)).
  pose proof (Z.mod_pos_bound (level - 1) 4 ltac:(lia)). lia.
Qed.

Lemma modifier_range (score : Z) : 1 <= score <= 30 -> -5 <= (score - 10) / 2 <= 10.
Proof.
  intros Hr.
  pose proof (Z.div_mod (score - 10) 2 ltac:(lia)).
  pose proof (Z.mod_pos_bound (score - 10) 2 ltac:(lia)). lia.
Qed.

(** X19: the proficiency bonus is defined exactly for the levels 1..20
    and follows the table 1-4: +2, 5-8: +3, 9-12: +4, 13-16: +5,
    17-20: +6; it never decreases with the level. *)
Theorem proficiency_bonus_tiers (level : Z) :
  (1 <= level <= 20 ->
   exists bonus,
     proficiency_bonus level = OK bonus
     /\ 2 <= bonus <= 6
     /\ 4 * (bonus - 2) + 1 <= level <= 4 * (bonus - 2) + 4)
  /\ (~ 1 <= level <= 20 ->
      proficiency_bonus level = Raise (ValueError LevelOutOfRange))
  /\ (forall level' bonus bonus',
        level <= level' ->
        proficiency_bonus level = OK bonus ->
        proficiency_bonus level' = OK bonus' ->
        bonus <= bonus').
Proof.
  split; [|split].
  - intros Hr. eexists. split; [apply proficiency_bonus_value; exact Hr|].
    apply bonus_range. exact Hr.
  - apply proficiency_bonus_bad.
  - intros level' b b' Hle Hb Hb'.
    apply proficiency_bonus_inv in Hb, Hb'. destruct Hb as [_ ->], Hb' as [_ ->].
    pose proof (Z.div_le_mono (level - 1) (level' - 1) 4 ltac:(lia) ltac:(lia)). lia.
Qed.

Lemma elem_of_lower_all (names : gset string) (x : string) :
  x ∈ lower_all names <-> exists y, x = Str.lower y /\ y ∈ names.
Proof. unfold lower_all. apply elem_of_map. Qed.

Lemma lower_all_lower (names : gset string) (x : string) :
  x ∈ lower_all names -> Str.lower x = x.
Proof. intros Hx. apply elem_of_lower_all in Hx. destruct Hx as (y & -> & _). apply lower_idempotent. Qed.

Lemma lower_all_idempotent (names : gset string) :
  lower_all (lower_all names) = lower_all names.
Proof.
  apply set_eq. intros x. rewrite !elem_of_lower_all. split.
  - intros (y & -> & Hy). rewrite (lower_all_lower _ _ Hy). apply elem_of_lower_all. exact Hy.
  - intros Hx. exists x. split; [|apply elem_of_lower_all; exact Hx].
    symmetry. apply (lower_all_lower names). apply elem_of_lower_all. exact Hx.
Qed.

(** X20: the constructor of [Character] checks the name first and the
    level second: an empty name raises whatever the level is, a level
    outside 1..20 raises otherwise.  The character it builds keeps name,
    level and abilities and holds the three sets with every member in
    lower case, so building a character again from its own fields
    changes nothing.  The abilities and the skill names are not checked. *)
Theorem new_Character_spec (name : string) (level : Z) (abilities : AbilityScores)
    (skills expertise saves : gset string) :
  (name = EmptyString ->
   new_Character name level abilities skills expertise saves
   = Raise (ValueError EmptyName))
  /\ (name <> EmptyString -> ~ 1 <= level <= 20 ->
      new_Character name level abilities skills expertise saves
      = Raise (ValueError LevelOutOfRange))
  /\ (name <> EmptyString -> 1 <= level <= 20 ->
      exists c,
        new_Character name level abilities skills expertise saves = OK c
        /\ Character.name c = name
        /\ Character.level c = level
        /\ Character.abilities c = abilities
        /\ (forall x, x ∈ proficient_skills c <-> exists y, x = Str.lower y /\ y ∈ skills)
        /\ (forall x, x ∈ expertise_skills c <-> exists y, x = Str.lower y /\ y ∈ expertise)
        /\ (forall x, x ∈ proficient_saves c <-> exists y, x = Str.lower y /\ y ∈ saves)
        /\ (forall x, x ∈ proficient_skills c ∪ expertise_skills c ∪ proficient_saves c ->
                      Str.lower x = x)
        /\ new_Character (Character.name c) (Character.level c) (Character.abilities c)
             (proficient_skills c) (expertise_skills c) (proficient_saves c) = OK c).
Proof.
  unfold new_Character, Character_post_init.
  cbn [Character.name Character.level].
  split; [intros ->; reflexivity|]. split.
  - intros Hname Hlevel. destruct name; [contradiction|].
    rewrite (proficiency_bonus_bad _ Hlevel). reflexivity.
  - intros Hname Hlevel. destruct name as [|c0 rest]; [contradiction|].
    rewrite (proficiency_bonus_value _ Hlevel). cbn [bind].
    eexists. split; [reflexivity|].
    unfold _normalise_sets.
    cbn [Character.name Character.level Character.abilities proficient_skills
         expertise_skills proficient_saves].
    split; [reflexivity|]. split; [reflexivity|]. split; [reflexivity|].
    split; [apply elem_of_lower_all|]. split; [apply elem_of_lower_all|].
    split; [apply elem_of_lower_all|]. split.
    + intros x Hx. apply elem_of_union in Hx. destruct Hx as [Hx | Hx];
        [apply elem_of_union in Hx; destruct Hx as [Hx | Hx]|];
        exact (lower_all_lower _ _ Hx).
    + rewrite (proficiency_bonus_value _ Hlevel). cbn [bind].
      rewrite !lower_all_idempotent. reflexivity.
Qed.

Lemma known_ability_modifier (self : Character) (ability : string) :
  AbilityScores_post_init (abilities self) = OK (abilities self) ->
  Str.lower ability ∈ ABILITY_NAMES ->
  exists score,
    getattr (abilities self) (Str.lower ability) = OK score
    /\ 1 <= score <= 30
    /\ ability_modifier self ability = OK ((score - 10) / 2)
    /\ ability_modifier self (Str.lower ability) = OK ((score - 10) / 2).
Proof.
  intros Hinit Hin.
  destruct (ability_modifier_value (abilities self) (Str.lower ability) Hinit Hin
              (lower_idempotent _)) as (score & Hget & Hmod).
  exists score. split; [exact Hget|].
  split; [exact (post_init_scores _ _ _ Hinit Hget)|].
  split; [|exact Hmod].
  unfold ability_modifier, AbilityScores_modifier in *. rewrite lower_idempotent in Hmod.
  rewrite (bool_decide_eq_true_2 _ Hin) in *. exact Hmod.
Qed.

(** X21: for a skill that is not an expertise skill, [skill_modifier] is
    the modifier of the governing ability plus the proficiency bonus once
    when the lower-cased name is in [proficient_skills], and the bare
    ability modifier otherwise. *)
Theorem skill_modifier_proficiency (self : Character) (skill ability : string) :
  AbilityScores_post_init (abilities self) = OK (abilities self) ->
  1 <= level self <= 20 ->
  SKILL_ABILITIES !! Str.lower skill = Some ability ->
  Str.lower skill ∉ expertise_skills self ->
  exists score bonus,
    getattr (abilities self) ability = OK score
    /\ Character_proficiency_bonus self = OK bonus
    /\ bonus = 2 + (level self - 1) / 4
    /\ (Str.lower skill ∈ proficient_skills self ->
        skill_modifier self skill = OK ((score - 10) / 2 + bonus))
    /\ (Str.lower skill ∉ proficient_skills self ->
        skill_modifier self skill = OK ((score - 10) / 2)).
Proof.
  intros Hinit Hlevel Hskill Hexpert.
  destruct (skill_ability_known _ _ Hskill) as [Hin Hlow].
  destruct (ability_modifier_value (abilities self) ability Hinit Hin Hlow)
    as (score & Hget & Hmod).
  exists score, (2 + (level self - 1) / 4).
  split; [exact Hget|].
  split; [apply proficiency_bonus_value; exact Hlevel|]. split; [reflexivity|].
  unfold skill_modifier. rewrite Hskill.
  unfold ability_modifier. rewrite Hmod. cbn [bind].
  rewrite (bool_decide_eq_false_2 _ Hexpert).
  unfold Character_proficiency_bonus. rewrite (proficiency_bonus_value _ Hlevel).
  split; intros Hprof.
  - rewrite (bool_decide_eq_true_2 _ Hprof). reflexivity.
  - rewrite (bool_decide_eq_false_2 _ Hprof). reflexivity.
Qed.

(** X22: for a character with valid scores and level, [skill_modifier]
    succeeds exactly on the names that are skills of [SKILL_ABILITIES]
    once lower-cased, whatever their case; the modifier lies in -5..22
    and [passive_score] is 10 more, so in 5..32.  For every other string
    both raise [KeyError] with the string as it was passed. *)
Theorem skill_modifier_known (self : Character) (skill : string) :
  AbilityScores_post_init (abilities self) = OK (abilities self) ->
  1 <= level self <= 20 ->
  (is_Some (SKILL_ABILITIES !! Str.lower skill) ->
   exists m,
     skill_modifier self skill = OK m
     /\ skill_modifier self (Str.lower skill) = OK m
     /\ -5 <= m <= 22
     /\ passive_score self skill = OK (10 + m))
  /\ (SKILL_ABILITIES !! Str.lower skill = None ->
      skill_modifier self skill = Raise (KeyError skill)
      /\ passive_score self skill = Raise (KeyError skill)).
Proof.
  intros Hinit Hlevel. split.
  - intros [ability Hskill].
    destruct (skill_ability_known _ _ Hskill) as [Hin Hlow].
    destruct (ability_modifier_value (abilities self) ability Hinit Hin Hlow)
      as (score & Hget & Hmod).
    pose proof (modifier_range score (post_init_scores _ _ _ Hinit Hget)) as Hm.
    pose proof (bonus_range _ Hlevel) as [Hb _].
    unfold passive_score, skill_modifier. rewrite lower_idempotent, Hskill.
    unfold ability_modifier. rewrite Hmod. cbn [bind].
    unfold Character_proficiency_bonus. rewrite (proficiency_bonus_value _ Hlevel).
    cbn [bind].
    destruct (bool_decide (Str.lower skill ∈ expertise_skills self));
      [|destruct (bool_decide (Str.lower skill ∈ proficient_skills self))];
      cbn [bind]; eexists; (split; [reflexivity|]); (split; [reflexivity|]);
      (split; [lia|reflexivity]).
  - intros Hnone. unfold passive_score, skill_modifier. rewrite Hnone. split; reflexivity.
Qed.

(** X23: a saving throw is an ability check whose bonus is the
    proficiency bonus when the lower-cased ability is in
    [proficient_saves] and 0 otherwise; an ability check adds its bonus
    to the ability modifier.  A string that is not one of the six ability
    names, in any case, raises [KeyError] with the string as passed. *)
Theorem saving_throw_is_ability_check (self : Character) (ability : string) (extra : Z) :
  AbilityScores_post_init (abilities self) = OK (abilities self) ->
  1 <= level self <= 20 ->
  (Str.lower ability ∈ ABILITY_NAMES ->
   exists score bonus,
     getattr (abilities self) (Str.lower ability) = OK score
     /\ Character_proficiency_bonus self = OK bonus
     /\ ability_check self ability extra = OK ((score - 10) / 2 + extra)
     /\ saving_throw_modifier self ability
        = ability_check self ability
            (if bool_decide (Str.lower ability ∈ proficient_saves self) then bonus else 0)
     /\ (Str.lower ability ∈ proficient_saves self ->
         saving_throw_modifier self ability = OK ((score - 10) / 2 + bonus))
     /\ (Str.lower ability ∉ proficient_saves self ->
         saving_throw_modifier self ability = OK ((score - 10) / 2)))
  /\ (Str.lower ability ∉ ABILITY_NAMES ->
      saving_throw_modifier self ability = Raise (KeyError ability)
      /\ ability_check self ability extra = Raise (KeyError ability)).
Proof.
  intros Hinit Hlevel. split.
  - intros Hin.
    destruct (known_ability_modifier self ability Hinit Hin)
      as (score & Hget & Hr & Hmod & Hmodl).
    exists score, (2 + (level self - 1) / 4).
    split; [exact Hget|].
    split; [apply proficiency_bonus_value; exact Hlevel|].
    unfold ability_check, saving_throw_modifier.
    rewrite (bool_decide_eq_true_2 _ Hin). cbn [negb].
    rewrite Hmod, Hmodl. cbn [bind].
    unfold Character_proficiency_bonus. rewrite (proficiency_bonus_value _ Hlevel).
    cbn [bind].
    split; [reflexivity|]. split.
    + destruct (bool_decide (Str.lower ability ∈ proficient_saves self));
        [reflexivity|]. f_equal. lia.
    + split; intros Hsave.
      * rewrite (bool_decide_eq_true_2 _ Hsave). reflexivity.
      * rewrite (bool_decide_eq_false_2 _ Hsave). reflexivity.
  - intros Hout. unfold saving_throw_modifier, ability_check, ability_modifier,
      AbilityScores_modifier.
    rewrite (bool_decide_eq_false_2 _ Hout). split; reflexivity.
Qed.

(** X24: proficiency is matched without regard to case, across the
    constructor and the query: a save listed in any spelling when the
    character is built counts for every spelling asked for later, and the
    saving throw is the ability modifier plus the proficiency bonus of
    the level. *)
Theorem save_proficiency_any_case (name : string) (level : Z) (abilities : AbilityScores)
    (skills expertise saves : gset string) (c : Character) (listed asked : string) :
  new_Character name level abilities skills expertise saves = OK c ->
  AbilityScores_post_init abilities = OK abilities ->
  listed ∈ saves ->
  Str.lower asked = Str.lower listed ->
  Str.lower listed ∈ ABILITY_NAMES ->
  exists score,
    getattr abilities (Str.lower listed) = OK score
    /\ saving_throw_modifier c asked = OK ((score - 10) / 2 + (2 + (level - 1) / 4)).
Proof.
  intros Hnew Hinit Hlisted Hcase Hin.
  unfold new_Character, Character_post_init in Hnew. cbn [Character.name Character.level] in Hnew.
  destruct name as [|c0 rest]; [discriminate|].
  destruct (proficiency_bonus level) as [b|] eqn:Hb; [|discriminate].
  cbn [bind] in Hnew. injection Hnew as <-.
  apply proficiency_bonus_inv in Hb. destruct Hb as [Hlevel ->].
  unfold _normalise_sets. 
  cbn [Character.name Character.level Character.abilities proficient_skills
       expertise_skills proficient_saves].
  match goal with
  | |- context [saving_throw_modifier ?c0 _] => set (self := c0)
  end.
  rewrite <- Hcase in Hin.
  destruct (known_ability_modifier self asked Hinit Hin) as (score & Hget & _ & _ & Hmodl).
  exists score. cbn [Character.abilities self] in Hget. rewrite <- Hcase.
  split; [exact Hget|].
  unfold saving_throw_modifier. rewrite (bool_decide_eq_true_2 _ Hin). cbn [negb].
  rewrite Hmodl. cbn [bind].
  assert (Hsave : Str.lower asked ∈ proficient_saves self).
  { cbn [proficient_saves self]. apply elem_of_lower_all. exists listed.
    split; [exact Hcase|exact Hlisted]. }
  rewrite (bool_decide_eq_true_2 _ Hsave).
  unfold Character_proficiency_bonus. cbn [Character.level self].
  rewrite (proficiency_bonus_value _ Hlevel). reflexivity.
Qed.

Lemma skill_modifier_proficiency_witness :
  skill_modifier nyx "Acrobatics" = OK 6 /\ skill_modifier nyx "arcana" = OK 1.
Proof.
  split.
  - destruct (skill_modifier_proficiency nyx "Acrobatics" "dexterity")
      as (score & bonus & Hget & _ & Hbonus & Hprof & _).
    + reflexivity.
    + cbn. lia.
    + reflexivity.
    + vm_compute. discriminate.
    + injection Hget as <-. rewrite Hprof, Hbonus; [reflexivity|].
      vm_compute. reflexivity.
  - destruct (skill_modifier_proficiency nyx "arcana" "intelligence")
      as (score & bonus & Hget & _ & _ & _ & Hplain).
    + reflexivity.
    + cbn. lia.
    + reflexivity.
    + vm_compute. discriminate.
    + injection Hget as <-. rewrite Hplain; [reflexivity|].
      vm_compute. discriminate.
Defined.

Lemma skill_modifier_known_witness :
  (exists m, skill_modifier nyx "STEALTH" = OK m /\ -5 <= m <= 22
             /\ passive_score nyx "STEALTH" = OK (10 + m))
  /\ skill_modifier nyx "cooking" = Raise (KeyError "cooking").
Proof.
  destruct (skill_modifier_known nyx "STEALTH") as [Hknown _];
    [reflexivity | cbn; lia |].
  destruct (skill_modifier_known nyx "cooking") as [_ Hunknown];
    [reflexivity | cbn; lia |].
  split.
  - destruct Hknown as (m & Hm & _ & Hr & Hp); [eexists; reflexivity|].
    exists m. split; [exact Hm|]. split; [exact Hr|exact Hp].
  - apply Hunknown. reflexivity.
Defined.

Lemma saving_throw_is_ability_check_witness :
  saving_throw_modifier nyx "Dexterity" = OK 6
  /\ saving_throw_modifier nyx "WISDOM" = ability_check nyx "WISDOM" 0
  /\ saving_throw_modifier nyx "luck" = Raise (KeyError "luck").
Proof.
  destruct (saving_throw_is_ability_check nyx "Dexterity" 0) as [Hdex _];
    [reflexivity | cbn; lia |].
  destruct (saving_throw_is_ability_check nyx "WISDOM" 0) as [Hwis _];
    [reflexivity | cbn; lia |].
  destruct (saving_throw_is_ability_check nyx "luck" 0) as [_ Hluck];
    [reflexivity | cbn; lia |].
  split; [|split].
  - destruct Hdex as (score & bonus & Hget & Hbonus & _ & _ & Hsave & _); [name_in|].
    injection Hget as <-. injection Hbonus as <-.
    rewrite Hsave; [reflexivity|]. vm_compute. reflexivity.
  - destruct Hwis as (score & bonus & _ & _ & _ & Hcheck & _); [name_in|].
    rewrite Hcheck. reflexivity.
  - apply Hluck. intros Hin. apply list_elem_of_In in Hin. cbn in Hin.
    intuition discriminate.
Defined.

Lemma save_proficiency_any_case_witness :
  exists c,
    new_Character "Nyx" 5 nyx_scores ∅ ∅ {["Dexterity"]} = OK c
    /\ saving_throw_modifier c "DEXTERITY" = OK 6.
Proof.
  eexists. split; [reflexivity|].
  destruct (save_proficiency_any_case "Nyx" 5 nyx_scores ∅ ∅ {["Dexterity"]} _
              "Dexterity" "DEXTERITY" eq_refl eq_refl)
    as (score & Hget & Hsave).
  - apply elem_of_singleton. reflexivity.
  - reflexivity.
  - name_in.
  - injection Hget as <-. exact Hsave.
Defined.
